(** * termnl: classifier, session log, executor and translator

    A shallow embedding of [termnl_runtime.py] and of the execution handlers of
    [termnl.py], with the properties of the written specification proved (or
    refuted) against it.

    Conventions.
    - A Python [str] is a list of Unicode code points ([pystr]); [len] is
      [length], slicing is [take]/[drop], [+] is [++].
    - A Python [int] is a [Z].
    - The classifier's score is a float in the source.  Every constant added
      to it is a multiple of 0.5 of small magnitude, so every sum is exact in
      binary floating point; the embedding uses rationals ([Q]).
    - The operating system, the terminal and the AI provider are an interface
      ([Host]); the program threads an explicit [State] through them.
    - Text written to the terminal with [print] is not part of the state. *)

From Stdlib Require Import Strings.String Strings.Ascii.
From Stdlib Require Import ZArith QArith Lqa Lia.
From stdpp Require Import base list gmap sorting.

Local Open Scope Z_scope.

(** ** Python strings *)

Module PyStr.

(** A Python string: its code points, in order. *)
Definition pystr : Type := list N.

(** An ASCII literal of the source. *)
Definition lit (s : string) : pystr := N_of_ascii <$> list_ascii_of_string s.

Definition str_eqb (s t : pystr) : bool := bool_decide (s = t).

(** [bool(s)]: a string is truthy when it is not empty. *)
Definition truthy (s : pystr) : bool :=
  match s with [] => false | _ :: _ => true end.

(** [str.isspace] on one code point (CPython's [_PyUnicode_IsWhitespace]). *)
Definition is_space (c : N) : bool :=
  ((0x09 <=? c) && (c <=? 0x0D) || (0x1C <=? c) && (c <=? 0x1F)
   || (c =? 0x20) || (c =? 0x85) || (c =? 0xA0) || (c =? 0x1680)
   || (0x2000 <=? c) && (c <=? 0x200A)
   || (c =? 0x2028) || (c =? 0x2029) || (c =? 0x202F) || (c =? 0x205F)
   || (c =? 0x3000))%N.

(** The line boundaries of [str.splitlines] (CPython's [_PyUnicode_IsLinebreak]). *)
Definition is_linebreak (c : N) : bool :=
  ((0x0A <=? c) && (c <=? 0x0D) || (0x1C <=? c) && (c <=? 0x1E)
   || (c =? 0x85) || (c =? 0x2028) || (c =? 0x2029))%N.

Fixpoint lstrip (s : pystr) : pystr :=
  match s with
  | [] => []
  | c :: r => if is_space c then lstrip r else s
  end.

Definition rstrip (s : pystr) : pystr := reverse (lstrip (reverse s)).

(** [s.strip()] *)
Definition strip (s : pystr) : pystr := rstrip (lstrip s).

(** [s.split()]: the maximal runs of non-whitespace.  [cur] is the run being
    read, most recent code point first. *)
Fixpoint split_from (cur : pystr) (s : pystr) : list pystr :=
  match s with
  | [] => if truthy cur then [reverse cur] else []
  | c :: r =>
      if is_space c
      then (if truthy cur then reverse cur :: split_from [] r else split_from [] r)
      else split_from (c :: cur) r
  end.

Definition split (s : pystr) : list pystr := split_from [] s.

(** [s.splitlines()]: a line ends at a line boundary, CR LF counting as one;
    no empty last line is produced after a final boundary. *)
Fixpoint splitlines_from (cur : pystr) (s : pystr) : list pystr :=
  match s with
  | [] => if truthy cur then [reverse cur] else []
  | c :: r =>
      if is_linebreak c
      then reverse cur ::
           match r with
           | c' :: r' => if (c =? 0x0D)%N && (c' =? 0x0A)%N
                         then splitlines_from [] r'
                         else splitlines_from [] r
           | [] => splitlines_from [] r
           end
      else splitlines_from (c :: cur) r
  end.

Definition splitlines (s : pystr) : list pystr := splitlines_from [] s.

(** [s.startswith(p)] *)
Fixpoint startswith (s p : pystr) : bool :=
  match p, s with
  | [], _ => true
  | _ :: _, [] => false
  | a :: p', b :: s' => (a =? b)%N && startswith s' p'
  end.

(** [needle in hay] *)
Fixpoint contains (hay needle : pystr) : bool :=
  startswith hay needle
  || match hay with [] => false | _ :: r => contains r needle end.

(** [sep.join(parts)] *)
Fixpoint join (sep : pystr) (parts : list pystr) : pystr :=
  match parts with
  | [] => []
  | [p] => p
  | p :: rest => p ++ sep ++ join sep rest
  end.

Definition is_ascii (s : pystr) : bool := forallb (fun c => (c <? 128)%N) s.

Definition ascii_upper (c : N) : bool := ((65 <=? c) && (c <=? 90))%N.
Definition ascii_lower (c : N) : bool := ((97 <=? c) && (c <=? 122))%N.

(** The part of the Unicode character database behind [str.lower],
    [str.islower] and [str.isupper] that concerns strings with a code point
    outside ASCII.  ASCII strings are handled by the definitions below. *)
Class Unicode := {
  unicode_lower : pystr -> pystr;
  unicode_islower : pystr -> bool;
  unicode_isupper : pystr -> bool;
}.

(** [s.lower()] *)
Definition lower `{Unicode} (s : pystr) : pystr :=
  if is_ascii s
  then (fun c => if ascii_upper c then (c + 32)%N else c) <$> s
  else unicode_lower s.

(** [s.islower()]: no uppercase character and at least one lowercase one. *)
Definition islower `{Unicode} (s : pystr) : bool :=
  if is_ascii s
  then forallb (fun c => negb (ascii_upper c)) s && existsb ascii_lower s
  else unicode_islower s.

(** [s.isupper()] *)
Definition isupper `{Unicode} (s : pystr) : bool :=
  if is_ascii s
  then forallb (fun c => negb (ascii_lower c)) s && existsb ascii_upper s
  else unicode_isupper s.

End PyStr.
Import PyStr.

(** ** The session log ([termnl_runtime.SessionLog]) *)

Record HistoryEntry := {
  cmd : pystr;
  output : pystr;
  exit_code : Z;
  ts : Z;
}.

Definition SESSION_CAPACITY : nat := 12.
Definition TOKEN_BUDGET : Z := 5000.

(** The deque of entries with its [maxlen], and the character budget.  A
    deque cannot be built with a negative [maxlen], hence [nat]. *)
Record SessionLog := {
  entries : list HistoryEntry;
  maxlen : nat;
  token_budget : Z;
}.

(** [SessionLog(capacity, token_budget)] *)
Definition new_log (capacity : nat) (budget : Z) : SessionLog :=
  {| entries := []; maxlen := capacity; token_budget := budget |}.

(** [deque.append] of a bounded deque: the item is added on the right and,
    when the deque has outgrown [maxlen], one item is removed on the left. *)
Definition deque_append (maxlen : nat) (es : list HistoryEntry) (e : HistoryEntry)
  : list HistoryEntry :=
  let es' := es ++ [e] in
  if (maxlen <? length es')%nat then drop 1 es' else es'.

(** [sum(len(e.cmd) + len(e.output) for e in entries)] *)
Definition total_chars (es : list HistoryEntry) : Z :=
  foldr (fun e acc => (Z.of_nat (length (cmd e)) + Z.of_nat (length (output e))) + acc) 0 es.

(** The [while] loop of [record]: [popleft] while more than one entry is
    left and the entries exceed the budget. *)
Fixpoint evict (budget : Z) (es : list HistoryEntry) : list HistoryEntry :=
  match es with
  | _ :: (_ :: _) as rest => if total_chars es >? budget then evict budget rest else es
  | _ => es
  end.

(** The entry [record] builds; [now] is the value of [datetime.now()]. *)
Definition make_entry (c o : pystr) (rc : Z) (now : Z) : HistoryEntry :=
  {| cmd := c; output := if truthy o then take 600 o else []; exit_code := rc; ts := now |}.

(** [SessionLog.record(cmd, output, exit_code)] *)
Definition record (l : SessionLog) (c o : pystr) (rc : Z) (now : Z) : SessionLog :=
  {| entries := evict (token_budget l) (deque_append (maxlen l) (entries l) (make_entry c o rc now));
     maxlen := maxlen l;
     token_budget := token_budget l |}.

(** The check mark and the cross of the status line, and the line feed. *)
Definition CHECK_MARK : pystr := [0x2713%N].
Definition BALLOT_X : pystr := [0x2717%N].
Definition LF : pystr := [0x0A%N].

(** One round of the outer [for] loop of [render_context]: the status line
    is appended to [parts], then up to three lines of the output. *)
Definition render_entry (parts : list pystr) (entry : HistoryEntry) : list pystr :=
  let status := if exit_code entry =? 0 then CHECK_MARK else BALLOT_X in
  let parts := parts ++ [lit "[" ++ status ++ lit "] $ " ++ cmd entry] in
  if truthy (output entry)
  then foldl (fun parts line => parts ++ [lit "    " ++ line]) parts
             (take 3 (splitlines (strip (output entry))))
  else parts.

(** [SessionLog.render_context()] *)
Definition render_context (l : SessionLog) : pystr :=
  match entries l with
  | [] => lit "(no previous commands)"
  | _ :: _ =>
      let recent := drop (length (entries l) - 6)%nat (entries l) in
      join LF (foldl render_entry [] recent)
  end.

(** ** The classifier ([termnl_runtime.classify_input]) *)

(** The three results of [classify_input] (the strings ['builtin'],
    ['shell'] and ['natural'] of the source). *)
Inductive Classification := Builtin | Shell | Natural.

(** [s in (t1, t2, ...)] *)
Definition str_in (s : pystr) (ts : list pystr) : bool := existsb (str_eqb s) ts.

(** [s.startswith((p1, p2, ...))] *)
Definition startswith_any (s : pystr) (ps : list pystr) : bool := existsb (startswith s) ps.

Definition Qltb (x y : Q) : bool := negb (Qle_bool y x).

Definition shell_operators : list pystr :=
  [lit "|"; lit "&&"; lit "||"; lit ">>"; lit ">;"; lit ";"; lit "$("; lit "`"].

(** The rightwards arrow that the program prints before a proposed command. *)
Definition ARROW : pystr := [0x2192%N].

Definition nl_words : gset pystr :=
  list_to_set
    [lit "how"; lit "what"; lit "why"; lit "where"; lit "when"; lit "who";
     lit "which"; lit "can"; lit "could"; lit "would"; lit "should";
     lit "please"; lit "help"; lit "tell"; lit "give"; lit "is"; lit "are";
     lit "do"; lit "does"; lit "the"; lit "my"; lit "me"; lit "all";
     lit "about"; lit "need"; lit "want"].

(** The [for p in parts] loop that looks for the command behind leading
    [NAME=value] assignments; [effective_token] is kept when no token
    qualifies. *)
Fixpoint first_plain_token (parts : list pystr) (effective_token : pystr) : pystr :=
  match parts with
  | [] => effective_token
  | p :: rest =>
      if negb (contains p (lit "=")) || startswith p (lit "=")
      then p
      else first_plain_token rest effective_token
  end.

Definition effective_token_of (stripped : pystr) : pystr :=
  let first_token := match split stripped with t :: _ => t | [] => [] end in
  if contains first_token (lit "=") && negb (startswith first_token (lit "="))
  then first_plain_token (split stripped) first_token
  else first_token.

(** [len(tokens_lower & nl_words)] and [len(tokens_lower)] *)
Definition tokens_lower `{Unicode} (stripped : pystr) : gset pystr :=
  list_to_set (split (lower stripped)).

Definition nl_overlap_of `{Unicode} (stripped : pystr) : nat :=
  size (tokens_lower stripped ∩ nl_words).

(** The score [classify_input] has accumulated when it reaches the test
    for a question mark; [which] is the truth value of [shutil.which]. *)
Definition score_before_question `{Unicode} (which : pystr -> bool) (stripped : pystr) : Q :=
  let score := 0.0%Q in
  let effective_token := effective_token_of stripped in
  let score :=
    if startswith_any effective_token [lit "./"; lit "/"; lit "~"] then (score + 3.0)%Q else score in
  let score := if startswith effective_token (lit "$") then (score + 2.5)%Q else score in
  let score := if which effective_token then (score + 2.0)%Q else score in
  let score :=
    if existsb (contains stripped) shell_operators then (score + 2.5)%Q else score in
  let score :=
    if contains stripped (lit ">") && negb (contains stripped (lit ">>"))
       && negb (contains stripped ARROW)
    then (score + 2.0)%Q else score in
  let nl_overlap := nl_overlap_of stripped in
  let score :=
    if (2 <=? nl_overlap)%nat then (score - 2.0)%Q
    else if (nl_overlap =? 1)%nat && (2 <? size (tokens_lower stripped))%nat
         then (score - 0.5)%Q else score in
  let word_count := length (split stripped) in
  let score := if (4 <=? word_count)%nat && Qltb score 2.0 then (score - 1.5)%Q else score in
  let score :=
    if isupper (take 1 stripped) && (1 <? word_count)%nat then (score - 1.0)%Q else score in
  score.

(** The last test of the score: a short lowercase phrase without a
    natural-language word. *)
Definition short_lowercase `{Unicode} (stripped : pystr) : bool :=
  (length (split stripped) <=? 3)%nat && (nl_overlap_of stripped =? 0)%nat && islower stripped.

(** The score [classify_input] compares with its threshold. *)
Definition classify_score `{Unicode} (which : pystr -> bool) (stripped : pystr) : Q :=
  let score := score_before_question which stripped in
  let score := if contains stripped (lit "?") then (score - 3.0)%Q else score in
  let score := if short_lowercase stripped then (score + 1.0)%Q else score in
  score.

(** The [cd] override of [classify_input]. *)
Definition is_cd (stripped : pystr) : bool :=
  str_eqb stripped (lit "cd") || startswith stripped (lit "cd ").

(** [classify_input(text)] *)
Definition classify_input `{Unicode} (which : pystr -> bool) (text : pystr) : Classification :=
  let stripped := strip text in
  if negb (truthy stripped) then Builtin
  else if startswith stripped (lit "!") then Builtin
  else if str_in stripped [lit "exit"; lit "quit"] then Builtin
  else
    let score := classify_score which stripped in
    if is_cd stripped then Shell
    else if Qle_bool 1.0 score then Shell else Natural.

(** Unicode tables that know no cased letter outside ASCII; they are
    consulted for strings with a non-ASCII code point only. *)
Definition ascii_only : Unicode :=
  {| unicode_lower := fun s => s;
     unicode_islower := fun _ => false;
     unicode_isupper := fun _ => false |}.

(** ** The host: operating system, terminal and AI provider *)

(** The exceptions the program distinguishes.  [EOFError] and
    [OtherException] are instances of Python's [Exception];
    [KeyboardInterrupt] and [SystemExit] are not. *)
Inductive pyexc :=
  | EOFError
  | KeyboardInterrupt
  | SystemExit
  | OtherException (msg : pystr).

Definition is_Exception (e : pyexc) : bool :=
  match e with
  | EOFError | OtherException _ => true
  | KeyboardInterrupt | SystemExit => false
  end.

(** A call either returns a value or raises. *)
Inductive outcome (A : Type) :=
  | Returns (a : A)
  | Raises (e : pyexc).
Arguments Returns {A} a.
Arguments Raises {A} e.

(** What [subprocess.run] hands back. *)
Record CompletedProcess := {
  stdout : pystr;
  stderr : pystr;
  returncode : Z;
}.

(** The collaborators of the program.  [World] is everything outside the
    process and its globals that they read or change: the file system, the
    working directory, the provider and its client, the clock. *)
Class Host := {
  World : Type;
  (** [subprocess.run(cmd, shell=True, capture_output=capture, text=True)];
      it raises, for one, when the output cannot be decoded as text *)
  subprocess_run : pystr -> bool -> World -> outcome CompletedProcess * World;
  (** [os.chdir(path)]: [false] when it raises *)
  os_chdir : pystr -> World -> bool * World;
  os_expanduser : pystr -> pystr;
  (** [os.getcwd()]; it raises when the working directory is gone *)
  os_getcwd : World -> outcome pystr;
  (** the truth value of [shutil.which(token)] *)
  shutil_which : World -> pystr -> bool;
  datetime_now : World -> Z;
  platform_system : pystr;
  (** [ask_ai(client, provider, openrouter_model, prompt)] *)
  ask_ai : pystr -> World -> outcome (option pystr) * World;
  (** [write_cfg(_cfg_file, learning_mode)]; it raises when the file cannot
      be written *)
  write_cfg : bool -> World -> outcome unit * World;
  (** the handlers of [_BUILTINS] other than [!learn] and [!help]; they read
      lines from the terminal and act on the world *)
  external_builtin : pystr -> list pystr -> World -> outcome unit * list pystr * World;
}.

(** A call made to a collaborator, as an observer of the process would see
    it.  The list of these calls is kept beside the program's state; the
    program never reads it. *)
Inductive Event :=
  | Spawned (command : pystr) (capture : bool) (rc : Z)
  | SpawnFailed (command : pystr) (capture : bool) (e : pyexc)
  | ChangedDir (path : pystr) (ok : bool)
  | Asked (prompt : pystr).

(** The globals of [termnl.py] that the handlers use, the lines still to be
    read from the terminal, and the world. *)
Record State `{Host} := {
  world : World;
  stdin : list pystr;
  session_log : SessionLog;
  learning_mode : bool;
  trace : list Event;
}.

(** Code that runs on the state and may raise. *)
Definition Exec `{Host} (A : Type) : Type := State -> outcome A * State.

(** [ret] and [bind] of [Exec]: a raised exception skips what follows, the
    state reached so far is kept. *)
Definition ret `{Host} {A} (a : A) : Exec A := fun s => (Returns a, s).

Definition bind `{Host} {A B} (m : Exec A) (f : A -> Exec B) : Exec B := fun s =>
  match m s with
  | (Returns a, s') => f a s'
  | (Raises e, s') => (Raises e, s')
  end.

Declare Scope exec_scope.
Delimit Scope exec_scope with exec.
Notation "x ← y ; z" := (bind y (fun x => z))
  (at level 20, y at level 100, z at level 200, only parsing) : exec_scope.
Notation "' x ← y ; z" := (bind y (fun x => z))
  (at level 20, x pattern, y at level 100, z at level 200, only parsing) : exec_scope.
Notation "x ;; z" := (bind x (fun _ => z))
  (at level 100, z at level 200, only parsing, right associativity) : exec_scope.
Local Open Scope exec_scope.

(** [try: body / except Exception: handler] *)
Definition try_except_Exception `{Host} {A} (body : Exec A) (handler : Exec A) : Exec A :=
  fun s =>
    match body s with
    | (Returns a, s') => (Returns a, s')
    | (Raises e, s') => if is_Exception e then handler s' else (Raises e, s')
    end.

Section Primitives.
Context `{Host}.

Definition set_world (w : World) (s : State) : State :=
  {| world := w; stdin := stdin s; session_log := session_log s;
     learning_mode := learning_mode s; trace := trace s |}.

Definition set_stdin (i : list pystr) (s : State) : State :=
  {| world := world s; stdin := i; session_log := session_log s;
     learning_mode := learning_mode s; trace := trace s |}.

Definition set_session_log (l : SessionLog) (s : State) : State :=
  {| world := world s; stdin := stdin s; session_log := l;
     learning_mode := learning_mode s; trace := trace s |}.

Definition set_learning_mode (b : bool) (s : State) : State :=
  {| world := world s; stdin := stdin s; session_log := session_log s;
     learning_mode := b; trace := trace s |}.

Definition emit (ev : Event) (s : State) : State :=
  {| world := world s; stdin := stdin s; session_log := session_log s;
     learning_mode := learning_mode s; trace := trace s ++ [ev] |}.

(** [input(prompt)]: the next line of the terminal, [EOFError] at its end.
    The prompt is text written to the terminal and is left out. *)
Definition input : Exec pystr := fun s =>
  match stdin s with
  | [] => (Raises EOFError, s)
  | line :: rest => (Returns line, set_stdin rest s)
  end.

(** [subprocess.run(cmd, shell=True, ...)]: the call is noted whether it
    returns or raises. *)
Definition spawn (command : pystr) (capture : bool) : Exec CompletedProcess := fun s =>
  match subprocess_run command capture (world s) with
  | (Returns proc, w) =>
      (Returns proc, emit (Spawned command capture (returncode proc)) (set_world w s))
  | (Raises e, w) =>
      (Raises e, emit (SpawnFailed command capture e) (set_world w s))
  end.

(** [os.chdir(path)] inside [try ... except Exception]: tells whether it
    succeeded. *)
Definition chdir (path : pystr) : Exec bool := fun s =>
  let '(ok, w) := os_chdir path (world s) in
  (Returns ok, emit (ChangedDir path ok) (set_world w s)).

(** [lambda prompt: ask_ai(client, provider, openrouter_model, prompt)] *)
Definition ask (prompt : pystr) : Exec (option pystr) := fun s =>
  let '(r, w) := ask_ai prompt (world s) in
  (r, emit (Asked prompt) (set_world w s)).

(** [session_log.record(cmd, output, exit_code)] *)
Definition log_record (c o : pystr) (rc : Z) : Exec unit := fun s =>
  (Returns tt, set_session_log (record (session_log s) c o rc (datetime_now (world s))) s).

Definition get_learning_mode : Exec bool := fun s => (Returns (learning_mode s), s).
Definition get_world : Exec World := fun s => (Returns (world s), s).

(** [os.getcwd()] *)
Definition getcwd : Exec pystr := fun s => (os_getcwd (world s), s).
Definition get_session_log : Exec SessionLog := fun s => (Returns (session_log s), s).

End Primitives.

(** ** The executor and the translator ([termnl_runtime.py]) *)

Definition _PTY_COMMANDS : gset pystr :=
  list_to_set
    [lit "clear"; lit "top"; lit "htop"; lit "vim"; lit "vi"; lit "nano";
     lit "less"; lit "more"; lit "man"; lit "ssh"; lit "tmux"; lit "screen"].

(** [needs_pty(cmd)] *)
Definition needs_pty (command : pystr) : bool :=
  let base := match split command with b :: _ => b | [] => [] end in
  bool_decide (base ∈ _PTY_COMMANDS).

(** The result of [translate]: the dictionary with its ['commands'] and,
    when present, its ['explanation']. *)
Record TranslationResult := {
  commands : list pystr;
  explanation : option pystr;
}.

Definition QUOTE : pystr := [34%N].
Definition EM_DASH : pystr := [0x2014%N].
Definition LIGHT_BULB : pystr := [0x1F4A1%N].

(** The two prompts of [translate]. *)
Definition translate_prompt (user_input cwd os_shell session_context : pystr) : pystr :=
  lit "Convert the following request into executable " ++ os_shell ++ lit " commands." ++ LF
  ++ lit "Working directory: " ++ cwd ++ LF
  ++ LF
  ++ lit "Session context:" ++ LF
  ++ session_context ++ LF
  ++ LF
  ++ lit "Guidelines:" ++ LF
  ++ lit "- Return ONLY raw commands, one per line " ++ EM_DASH
  ++ lit " no markdown, no backticks, no commentary" ++ LF
  ++ lit "- For multi-step tasks, put each command on its own line" ++ LF
  ++ lit "- Leverage session context for references like " ++ QUOTE ++ lit "do that again"
  ++ QUOTE ++ lit " or " ++ QUOTE ++ lit "undo that" ++ QUOTE ++ LF
  ++ lit "- When ambiguous, choose the simplest standard approach" ++ LF
  ++ LF
  ++ lit "Request: " ++ user_input.

Definition tip_prompt (cmds : list pystr) : pystr :=
  let cmd_repr :=
    match cmds with
    | [c] => c
    | _ => join (lit " && ") cmds
    end in
  lit "In 1-2 sentences, explain what this command does for someone learning the terminal."
  ++ LF
  ++ lit "Command: " ++ cmd_repr ++ LF
  ++ lit "Include a practical tip about the flags or options used. Start with " ++ LIGHT_BULB.

(** [[ln.strip() for ln in raw.splitlines() if ln.strip()]] *)
Definition parse_commands (raw : pystr) : list pystr :=
  flat_map (fun ln => if truthy (strip ln) then [strip ln] else []) (splitlines raw).

Section Runtime.
Context `{Host}.

(** [run(cmd)]: a command that needs the terminal runs attached to it and
    yields no output. *)
Definition run (command : pystr) : Exec (pystr * pystr * Z) :=
  if needs_pty command
  then proc ← spawn command false; ret ([], [], returncode proc)
  else proc ← spawn command true; ret (stdout proc, stderr proc, returncode proc).

(** [translate(user_input, cwd, os_shell, learning_mode, session_context, ask_ai_fn)] *)
Definition translate (user_input cwd os_shell : pystr) (learning : bool)
    (session_context : pystr) (ask_ai_fn : pystr -> Exec (option pystr))
  : Exec TranslationResult :=
  raw ← ask_ai_fn (translate_prompt user_input cwd os_shell session_context);
  match raw with
  | None | Some [] => ret {| commands := []; explanation := None |}
  | Some raw =>
      let cmds := parse_commands raw in
      let result := {| commands := cmds; explanation := None |} in
      if learning && (match cmds with [] => false | _ :: _ => true end)
      then
        try_except_Exception
          (tip ← ask_ai_fn (tip_prompt cmds);
           match tip with
           | None | Some [] => ret result
           | Some tip => ret {| commands := cmds; explanation := Some tip |}
           end)
          (ret result)
      else ret result
  end.

End Runtime.

(** ** The execution handlers and the dispatcher ([termnl.py]) *)

(** What one round of the [while True] loop of [main] decides. *)
Inductive loop_signal := Continue | Break.

(** The reply to the [y/n/q] prompt of [_run_stepping], as its [if]/[elif]
    reads it. *)
Inductive step_choice := RunIt | SkipIt | QuitAll.

Section Handlers.
Context `{Unicode} `{Host}.

(** [_os_shell] *)
Definition _os_shell : pystr :=
  if str_eqb platform_system (lit "Darwin") then lit "macOS/zsh" else lit "Linux/bash".

(** [_handle_cd(args)] *)
Definition _handle_cd (args : pystr) : Exec unit :=
  let path :=
    if truthy (strip args) then os_expanduser (strip args) else os_expanduser (lit "~") in
  _ ← chdir path;
  ret tt.

(** [_handle_learn()] *)
Definition _handle_learn : Exec unit := fun s =>
  let b := negb (learning_mode s) in
  let '(r, w) := write_cfg b (world s) in
  (r, set_world w (set_learning_mode b s)).

(** [_handle_force_run(cmd)] *)
Definition _handle_force_run (command : pystr) : Exec unit :=
  '(out, err, rc) ← run command;
  log_record command (out ++ err) rc.

(** [_exec_single(command, explanation)] *)
Definition _exec_single (command : pystr) (explanation : option pystr) : Exec unit :=
  confirm ← input;
  if truthy confirm then ret tt
  else if startswith command (lit "cd ") then _handle_cd (drop 3 command)
  else
    '(out, err, rc) ← run command;
    log_record command (out ++ err) rc.

(** [_run_sequence(commands)] *)
Fixpoint _run_sequence (cmds : list pystr) : Exec unit :=
  match cmds with
  | [] => ret tt
  | command :: rest =>
      if startswith command (lit "cd ")
      then
        ok ← chdir (os_expanduser (strip (drop 3 command)));
        if ok then _run_sequence rest else ret tt
      else
        '(out, err, rc) ← run command;
        log_record command (out ++ err) rc;;
        if negb (rc =? 0) then ret tt else _run_sequence rest
  end.

Definition read_choice (reply : pystr) : step_choice :=
  let choice := lower (strip reply) in
  if str_in choice [lit "y"; lit "yes"; lit ""] then RunIt
  else if str_eqb choice (lit "q") then QuitAll
  else SkipIt.

(** [_run_stepping(commands)] *)
Fixpoint _run_stepping (cmds : list pystr) : Exec unit :=
  match cmds with
  | [] => ret tt
  | command :: rest =>
      reply ← input;
      match read_choice reply with
      | RunIt =>
          (if startswith command (lit "cd ")
           then _ ← chdir (os_expanduser (strip (drop 3 command))); ret tt
           else
             '(out, err, _) ← run command;
             log_record command (out ++ err) 0);;
          _run_stepping rest
      | QuitAll => ret tt
      | SkipIt => _run_stepping rest
      end
  end.

(** [_exec_multi(commands, explanation)] *)
Definition _exec_multi (cmds : list pystr) (explanation : option pystr) : Exec unit :=
  reply ← input;
  let confirm := lower (strip reply) in
  if str_in confirm [lit "y"; lit "yes"; lit ""] then _run_sequence cmds
  else if str_eqb confirm (lit "step") then _run_stepping cmds
  else ret tt.

(** A handler of the table that lives in another module. *)
Definition external (key : pystr) : Exec unit := fun s =>
  let '(r, i, w) := external_builtin key (stdin s) (world s) in
  (r, set_stdin i (set_world w s)).

(** [_BUILTINS]: the handler of a key, if it has one. *)
Definition _BUILTINS (key : pystr) : option (Exec unit) :=
  if str_eqb key (lit "!learn") then Some _handle_learn
  else if str_eqb key (lit "!help") then Some (ret tt)
  else if str_in key [lit "!provider"; lit "!model"; lit "!autolaunch";
                      lit "!update"; lit "!uninstall"]
  then Some (external key)
  else None.

(** The body of the [try] of [main]'s loop. *)
Definition repl_body : Exec loop_signal :=
  cwd ← getcwd;
  line ← input;
  let user_input := strip line in
  if negb (truthy user_input) then ret Continue
  else if str_in user_input [lit "exit"; lit "quit"] then ret Break
  else if is_cd user_input then _handle_cd (drop 3 user_input);; ret Continue
  else
    match _BUILTINS user_input with
    | Some handler => handler;; ret Continue
    | None =>
        if startswith user_input (lit "!")
        then
          let command := drop 1 user_input in
          (if truthy command then _handle_force_run command else ret tt);;
          ret Continue
        else
          w ← get_world;
          match classify_input (shutil_which w) user_input with
          | Shell =>
              '(out, err, rc) ← run user_input;
              log_record user_input (out ++ err) rc;;
              ret Continue
          | _ =>
              learning ← get_learning_mode;
              l ← get_session_log;
              result ← translate user_input cwd _os_shell learning (render_context l) ask;
              match commands result with
              | [] => ret Continue
              | [command] => _exec_single command (explanation result);; ret Continue
              | _ => _exec_multi (commands result) (explanation result);; ret Continue
              end
          end
    end.

(** One round of the loop of [main] with its [except] clauses: the end of
    the input leaves the loop, an interrupt and any other [Exception] go on
    with the next round.  The [_interrupted] flag, which a signal handler
    sets at any moment and the loop clears before it reads a line, is not
    part of the state. *)
Definition repl_step : Exec loop_signal := fun s =>
  match repl_body s with
  | (Raises EOFError, s') => (Returns Break, s')
  | (Raises KeyboardInterrupt, s') => (Returns Continue, s')
  | (Raises (OtherException _), s') => (Returns Continue, s')
  | r => r
  end.

End Handlers.

(** ** A host for the worked examples

    Its world has no state.  The commands [b] and [false] fail with exit code
    1 and a message on the error stream, every other command prints [ok] and
    succeeds; every directory exists; only [ls] is on the search path; the
    provider answers a translation request with the three lines
    [ls], (empty), [ls -la], and fails on a request for an explanation. *)
Definition example_host : Host := {|
  World := unit;
  subprocess_run := fun command capture w =>
    if str_in command [lit "b"; lit "false"]
    then (Returns {| stdout := []; stderr := lit "failed" ++ LF; returncode := 1 |}, w)
    else (Returns {| stdout := lit "ok" ++ LF; stderr := []; returncode := 0 |}, w);
  os_chdir := fun path w => (true, w);
  os_expanduser := fun path => path;
  os_getcwd := fun w => Returns (lit "/home/user");
  shutil_which := fun w token => str_eqb token (lit "ls");
  datetime_now := fun w => 0;
  platform_system := lit "Linux";
  ask_ai := fun prompt w =>
    if startswith prompt (lit "In 1-2 sentences")
    then (Raises (OtherException (lit "429 quota exceeded")), w)
    else (Returns (Some (lit "ls" ++ LF ++ LF ++ lit "ls -la" ++ LF)), w);
  write_cfg := fun b w => (Returns tt, w);
  external_builtin := fun key lines w => (Returns tt, lines, w);
|}.

(** The state of a fresh process on [example_host] with [lines] waiting on
    the terminal. *)
Definition example_state (lines : list pystr) (learning : bool) : @State example_host :=
  @Build_State example_host tt lines (new_log SESSION_CAPACITY TOKEN_BUDGET) learning [].

(** ** Configuration and update targets ([termnl_system.py]) *)

Module System.

(** The regular text files that the functions below read and write, by
    path, each with its decoded text; a path that is no key does not exist.
    Directories, unreadable files and undecodable bytes are outside this
    picture. *)
Definition Files : Type := gmap pystr pystr.

(** Reading in text mode: [CR LF] and a lone [CR] are read as [LF]. *)
Fixpoint universal_newlines (s : pystr) : pystr :=
  match s with
  | [] => []
  | c :: r =>
      if (c =? 0x0D)%N
      then 0x0A%N ::
           match r with
           | c' :: r' => if (c' =? 0x0A)%N then universal_newlines r'
                         else universal_newlines r
           | [] => []
           end
      else c :: universal_newlines r
  end.

(** [for raw in f]: the lines of the text, each with its line feed; [cur]
    is the line being read, most recent code point first. *)
Fixpoint lines_from (cur : pystr) (s : pystr) : list pystr :=
  match s with
  | [] => if truthy cur then [reverse cur] else []
  | c :: r =>
      if (c =? 0x0A)%N then reverse (c :: cur) :: lines_from [] r
      else lines_from (c :: cur) r
  end.

Definition file_lines (content : pystr) : list pystr :=
  lines_from [] (universal_newlines content).

(** [str(b)] for a boolean *)
Definition str_of_bool (b : bool) : pystr := if b then lit "True" else lit "False".

(** [read_cfg(cfg_file)] *)
Definition read_cfg (cfg_file : pystr) (fs : Files) : bool :=
  match fs !! cfg_file with
  | Some content =>
      existsb (fun raw => contains raw (lit "learning_mode=true")) (file_lines content)
  | None => false
  end.

(** [write_cfg(cfg_file, learning_mode)]: the file is replaced.  On the
    systems the program is written for a line feed is written as it is. *)
Definition write_cfg `{Unicode} (cfg_file : pystr) (learning : bool) (fs : Files) : Files :=
  <[cfg_file := lit "learning_mode=" ++ lower (str_of_bool learning) ++ LF]> fs.

(** [s.endswith(suffix)] *)
Definition endswith (s suffix : pystr) : bool :=
  startswith (reverse s) (reverse suffix).

(** The order of [sorted] on strings: code point by code point, a proper
    prefix first. *)
Fixpoint str_leb (s t : pystr) : bool :=
  match s, t with
  | [], _ => true
  | _ :: _, [] => false
  | a :: s', b :: t' => (a <? b)%N || ((a =? b)%N && str_leb s' t')
  end.

Definition str_le (s t : pystr) : Prop := str_leb s t = true.

#[global] Instance str_le_dec s t : Decision (str_le s t).
Proof. unfold str_le. apply _. Defined.

(** [sorted(names)] *)
Definition sorted (names : list pystr) : list pystr := merge_sort str_le names.

(** The test of the loop of [_update_file_targets]: [is_file] is
    [os.path.isfile] of the entry. *)
Definition is_target (entry : pystr * bool) : bool :=
  snd entry && (endswith (fst entry) (lit ".py") || str_eqb (fst entry) (lit "requirements.txt")).

(** [_update_file_targets(path)]: [listing] is [None] when the path does
    not exist, else the names of [os.listdir(path)], each with whether it is
    a regular file. *)
Definition _update_file_targets (listing : option (list (pystr * bool))) : list pystr :=
  match listing with
  | None => []
  | Some entries => sorted (fst <$> List.filter is_target entries)
  end.

End System.

(** ** Vocabulary of the statements *)

(** One call of [record], with the clock reading it makes. *)
Record Call := {
  call_cmd : pystr;
  call_output : pystr;
  call_exit_code : Z;
  call_now : Z;
}.

Definition entry_of_call (c : Call) : HistoryEntry :=
  make_entry (call_cmd c) (call_output c) (call_exit_code c) (call_now c).

Definition apply_call (l : SessionLog) (c : Call) : SessionLog :=
  record l (call_cmd c) (call_output c) (call_exit_code c) (call_now c).

(** The log after a sequence of [record] calls, first call first. *)
Definition replay (l : SessionLog) (calls : list Call) : SessionLog :=
  foldl apply_call l calls.

(** What a log built by [record] always satisfies. *)
Definition log_ok (l : SessionLog) : Prop :=
  (length (entries l) <= maxlen l)%nat
  /\ Forall (fun e => (length (output e) <= 600)%nat) (entries l).

(** The status line of an entry and the indentation of an output line. *)
Definition status_line (e : HistoryEntry) : pystr :=
  lit "[" ++ (if exit_code e =? 0 then CHECK_MARK else BALLOT_X) ++ lit "] $ " ++ cmd e.

Definition indent (line : pystr) : pystr := lit "    " ++ line.

(** The output lines shown for an entry: the leading lines of its output
    once the white space around the output is removed. *)
Definition shown_lines (e : HistoryEntry) : list pystr :=
  take 3 (splitlines (strip (output e))).

Definition entry_block (e : HistoryEntry) : list pystr :=
  status_line e :: (indent <$> shown_lines e).

(** The digest in the words of the specification: for each of the last six
    entries the status line, then at most the first three non-blank lines of
    its output, indented. *)
Definition nonblank_lines (o : pystr) : list pystr :=
  List.filter (fun ln => truthy (strip ln)) (splitlines o).

Definition spec_entry_block (e : HistoryEntry) : list pystr :=
  status_line e :: (indent <$> take 3 (nonblank_lines (output e))).

Definition render_context_spec (l : SessionLog) : pystr :=
  match entries l with
  | [] => lit "(no previous commands)"
  | _ :: _ =>
      join LF (flat_map spec_entry_block (drop (length (entries l) - 6)%nat (entries l)))
  end.

(** A log with one entry, whose output has a blank second line:
    [a], (blank), [b], [c]. *)
Definition blank_line_log : SessionLog :=
  record (new_log SESSION_CAPACITY TOKEN_BUDGET) (lit "ls")
    (lit "a" ++ LF ++ LF ++ lit "b" ++ LF ++ lit "c" ++ LF) 0 0.

(** The sum of the signals of the classifier other than the question mark:
    the score the input would get were the test for [?] left out. *)
Definition score_without_question `{Unicode} (which : pystr -> bool) (stripped : pystr) : Q :=
  let score := score_before_question which stripped in
  if short_lowercase stripped then (score + 1.0)%Q else score.

(** A pipeline whose pattern holds a question mark. *)
Definition question_pipeline : pystr := lit "./build.sh | grep a?".

(** The target of [_handle_cd(user_input[3:])]. *)
Definition cd_target `{Host} (user_input : pystr) : pystr :=
  if truthy (strip (drop 3 user_input))
  then os_expanduser (strip (drop 3 user_input))
  else os_expanduser (lit "~").

(** The state after [run(command)] has spawned the process [proc], leaving
    the world [w], and the result has been recorded with exit code
    [logged]. *)
Definition ran `{Host} (command : pystr) (proc : CompletedProcess) (w : World)
    (logged : Z) (s : State) : State :=
  let out := if needs_pty command then [] else stdout proc ++ stderr proc in
  {| world := w;
     stdin := stdin s;
     session_log := record (session_log s) command out logged (datetime_now w);
     learning_mode := learning_mode s;
     trace := trace s ++ [Spawned command (negb (needs_pty command)) (returncode proc)] |}.

(** The state after [run(command)] has raised [e], leaving the world [w]:
    nothing is recorded. *)
Definition spawn_failed `{Host} (command : pystr) (e : pyexc) (w : World) (s : State)
  : State :=
  {| world := w;
     stdin := stdin s;
     session_log := session_log s;
     learning_mode := learning_mode s;
     trace := trace s ++ [SpawnFailed command (negb (needs_pty command)) e] |}.

(** How a run of commands ends, given its calls: by the exception of the
    last call if that call raised, normally otherwise. *)
Definition ends_as (r : outcome unit) (evs : list Event) : Prop :=
  match last evs with
  | Some (SpawnFailed _ _ e) => r = Raises e
  | _ => r = Returns tt
  end.


(** The state after [os.chdir(path)] has left the world [w]. *)
Definition changed_dir `{Host} (path : pystr) (ok : bool) (w : World) (s : State) : State :=
  {| world := w;
     stdin := stdin s;
     session_log := session_log s;
     learning_mode := learning_mode s;
     trace := trace s ++ [ChangedDir path ok] |}.

(** [ev] is the execution of [command] by a multi-step handler: a change of
    directory for a command that starts with [cd ], a process otherwise. *)
Definition executes `{Host} (command : pystr) (ev : Event) : bool :=
  match ev with
  | Spawned c capture _ | SpawnFailed c capture _ =>
      negb (startswith command (lit "cd ")) && str_eqb c command
      && Bool.eqb capture (negb (needs_pty command))
  | ChangedDir path _ =>
      startswith command (lit "cd ")
      && str_eqb path (os_expanduser (strip (drop 3 command)))
  | Asked _ => false
  end.

(** The execution ended with a non-zero exit code (for a change of
    directory: it raised), or the call that runs the process raised. *)
Definition failed (ev : Event) : bool :=
  match ev with
  | Spawned _ _ rc => negb (rc =? 0)
  | SpawnFailed _ _ _ => true
  | ChangedDir _ ok => negb ok
  | Asked _ => false
  end.

(** The call that runs the process raised. *)
Definition raised (ev : Event) : bool :=
  match ev with SpawnFailed _ _ _ => true | _ => false end.

(** The events of a run that takes [cmds] one at a time in their order and
    ends after the first execution that [stop] marks. *)
Fixpoint run_until `{Host} (stop : Event -> bool) (cmds : list pystr) (evs : list Event)
  : Prop :=
  match cmds, evs with
  | [], [] => True
  | command :: rest, ev :: evs' =>
      executes command ev = true
      /\ if stop ev then evs' = [] else run_until stop rest evs'
  | _, _ => False
  end.

(** Sequential mode ends after the first failure. *)
Definition sequence_run `{Host} (cmds : list pystr) (evs : list Event) : Prop :=
  run_until failed cmds evs.

(** Stepping mode goes through its plan and ends early only when a call
    raises. *)
Definition stepping_run `{Host} (plan : list pystr) (evs : list Event) : Prop :=
  run_until raised plan evs.

(** How a Stepping run ends: by the exception of the last call if that call
    raised; otherwise normally, or at the end of the input. *)
Definition stepping_ends_as (r : outcome unit) (evs : list Event) : Prop :=
  match last evs with
  | Some (SpawnFailed _ _ e) => r = Raises e
  | _ => r = Returns tt \/ r = Raises EOFError
  end.

(** The commands that Stepping mode runs, given the replies on the
    terminal: the commands answered [RunIt] up to the first [QuitAll] or the
    end of the replies. *)
Fixpoint stepping_plan `{Unicode} (cmds replies : list pystr) : list pystr :=
  match cmds, replies with
  | command :: rest, reply :: replies' =>
      match read_choice reply with
      | RunIt => command :: stepping_plan rest replies'
      | SkipIt => stepping_plan rest replies'
      | QuitAll => []
      end
  | _, _ => []
  end.

(** The command list in the words of the specification: the response split
    into lines, each line trimmed, the blank ones dropped. *)
Definition lines_spec (raw : pystr) : list pystr :=
  List.filter truthy (strip <$> splitlines raw).

(** [ev] is the process that the call [c] of [record] reports: the same
    command and the same exit code. *)
Definition recorded_as (c : Call) (ev : Event) : Prop :=
  exists capture, ev = Spawned (call_cmd c) capture (call_exit_code c).

Definition is_spawn (ev : Event) : bool :=
  match ev with Spawned _ _ _ => true | _ => false end.







(** A fourth host for the worked examples: as [example_host], but the output
    of [cat blob] cannot be decoded, so that [subprocess.run] raises. *)
Definition garbled_host : Host := {|
  World := unit;
  subprocess_run := fun command capture w =>
    if str_eqb command (lit "cat blob")
    then (Raises (OtherException (lit "UnicodeDecodeError")), w)
    else (Returns {| stdout := lit "ok" ++ LF; stderr := []; returncode := 0 |}, w);
  os_chdir := fun path w => (true, w);
  os_expanduser := fun path => path;
  os_getcwd := fun w => Returns (lit "/home/user");
  shutil_which := fun w token => str_in token [lit "ls"; lit "cat"];
  datetime_now := fun w => 0;
  platform_system := lit "Linux";
  ask_ai := fun prompt w => (Returns None, w);
  write_cfg := fun b w => (Returns tt, w);
  external_builtin := fun key lines w => (Returns tt, lines, w);
|}.

Definition garbled_state (lines : list pystr) : @State garbled_host :=
  @Build_State garbled_host tt lines (new_log SESSION_CAPACITY TOKEN_BUDGET) false [].

(** A fifth host: as [example_host], but the working directory of the
    process has been removed, so that [os.getcwd()] raises. *)
Definition removed_dir_host : Host := {|
  World := unit;
  subprocess_run := fun command capture w =>
    (Returns {| stdout := lit "ok" ++ LF; stderr := []; returncode := 0 |}, w);
  os_chdir := fun path w => (true, w);
  os_expanduser := fun path => path;
  os_getcwd := fun w => Raises (OtherException (lit "FileNotFoundError"));
  shutil_which := fun w token => str_eqb token (lit "ls");
  datetime_now := fun w => 0;
  platform_system := lit "Linux";
  ask_ai := fun prompt w => (Returns None, w);
  write_cfg := fun b w => (Returns tt, w);
  external_builtin := fun key lines w => (Returns tt, lines, w);
|}.

Definition removed_dir_state (lines : list pystr) : @State removed_dir_host :=
  @Build_State removed_dir_host tt lines (new_log SESSION_CAPACITY TOKEN_BUDGET) false [].

(** * Properties *)

(** ** Strings *)

Example splitlines_ex :
  splitlines (lit "a" ++ [10; 10]%N ++ lit "b" ++ [13; 10]%N ++ lit "c" ++ [10]%N)
  = [lit "a"; []; lit "b"; lit "c"].
Proof. vm_compute. reflexivity. Qed.

Example split_ex : split (lit "  FOO=bar   ls -la ") = [lit "FOO=bar"; lit "ls"; lit "-la"].
Proof. vm_compute. reflexivity. Qed.

Example strip_ex : strip (lit "  cd  /tmp  ") = lit "cd  /tmp".
Proof. vm_compute. reflexivity. Qed.

(** ** The session log *)

Lemma total_chars_cons e es :
  total_chars (e :: es)
  = Z.of_nat (length (cmd e)) + Z.of_nat (length (output e)) + total_chars es.
Proof. reflexivity. Qed.

Lemma evict_cons2 budget e e' es :
  evict budget (e :: e' :: es)
  = if total_chars (e :: e' :: es) >? budget then evict budget (e' :: es)
    else e :: e' :: es.
Proof. reflexivity. Qed.

Lemma evict_suffix budget es : evict budget es `suffix_of` es.
Proof.
  induction es as [|e [|e' es] IH]; try done.
  rewrite evict_cons2. destruct (_ >? _); [|done].
  by apply suffix_cons_r.
Qed.

Lemma evict_within_budget budget es :
  (length (evict budget es) <= 1)%nat \/ total_chars (evict budget es) <= budget.
Proof.
  induction es as [|e [|e' es] IH]; try (left; simpl; lia).
  rewrite evict_cons2.
  destruct (total_chars (e :: e' :: es) >? budget) eqn:Hgt; [exact IH|].
  right. rewrite Z.gtb_ltb in Hgt. apply Z.ltb_ge in Hgt. exact Hgt.
Qed.

Lemma evict_last budget es : last (evict budget es) = last es.
Proof.
  induction es as [|e [|e' es] IH]; try done.
  rewrite evict_cons2. destruct (_ >? _); [|done].
  rewrite IH. reflexivity.
Qed.

Lemma deque_append_suffix m es e : deque_append m es e `suffix_of` (es ++ [e]).
Proof.
  unfold deque_append. destruct (_ <? _)%nat; [apply suffix_drop|done].
Qed.

Lemma deque_append_length m es e :
  (length es <= m)%nat -> (length (deque_append m es e) <= m)%nat.
Proof.
  intros Hle. unfold deque_append.
  destruct (m <? length (es ++ [e]))%nat eqn:Hlt.
  - rewrite length_drop, length_app. simpl. lia.
  - apply Nat.ltb_ge in Hlt. exact Hlt.
Qed.

Lemma deque_append_last m es e :
  (0 < m)%nat -> last (deque_append m es e) = Some e.
Proof.
  intros Hm. unfold deque_append.
  destruct (m <? length (es ++ [e]))%nat eqn:Hlt.
  - apply Nat.ltb_lt in Hlt. rewrite length_app in Hlt. simpl in Hlt.
    destruct es as [|e0 es]; simpl in *; [lia|].
    rewrite drop_0. apply last_snoc.
  - apply last_snoc.
Qed.

Lemma make_entry_output_bound c o rc now :
  (length (output (make_entry c o rc now)) <= 600)%nat.
Proof.
  simpl. destruct (truthy o); simpl; [rewrite length_take|]; lia.
Qed.

Lemma record_entries_suffix l c o rc now :
  entries (record l c o rc now) `suffix_of` (entries l ++ [make_entry c o rc now]).
Proof.
  simpl. etrans; [apply evict_suffix|apply deque_append_suffix].
Qed.

Lemma record_ok l c o rc now : log_ok l -> log_ok (record l c o rc now).
Proof.
  intros [Hlen Hout]. split.
  - simpl. etrans; [apply suffix_length, evict_suffix|].
    by apply deque_append_length.
  - destruct (record_entries_suffix l c o rc now) as [k Hk].
    assert (Hall : Forall (fun e => (length (output e) <= 600)%nat)
                     (entries l ++ [make_entry c o rc now])).
    { apply Forall_app. split; [done|].
      constructor; [apply make_entry_output_bound|constructor]. }
    rewrite Hk in Hall. by apply Forall_app in Hall as [_ ?].
Qed.

Lemma replay_ok l calls : log_ok l -> log_ok (replay l calls).
Proof.
  revert l. induction calls as [|c calls IH]; intros l Hl; [done|].
  simpl. apply IH. by apply record_ok.
Qed.

Lemma replay_params l calls :
  maxlen (replay l calls) = maxlen l /\ token_budget (replay l calls) = token_budget l.
Proof.
  revert l. induction calls as [|c calls IH]; intros l; [done|].
  simpl. destruct (IH (apply_call l c)) as [-> ->]. done.
Qed.

(** C2. After every call of [record] in any sequence of calls on a new log:
    the log holds at most [capacity] entries; when it holds more than one,
    their commands and outputs together are within [token_budget]; the
    entries kept are the most recent ones (those dropped were the oldest:
    the log is a suffix of the old log followed by the new entry), and the
    new entry itself is kept whatever its size as long as the capacity is
    not zero; no stored output is longer than 600 characters. *)
Theorem session_log_invariants (capacity : nat) (budget : Z) (calls : list Call) (c : Call) :
  let before := replay (new_log capacity budget) calls in
  let after := apply_call before c in
  (length (entries after) <= capacity)%nat
  /\ ((1 < length (entries after))%nat -> total_chars (entries after) <= budget)
  /\ entries after `suffix_of` (entries before ++ [entry_of_call c])
  /\ ((0 < capacity)%nat -> last (entries after) = Some (entry_of_call c))
  /\ Forall (fun e => (length (output e) <= 600)%nat) (entries after).
Proof.
  intros before after.
  assert (Hbefore : log_ok before).
  { apply replay_ok. split; simpl; [lia|constructor]. }
  destruct (replay_params (new_log capacity budget) calls) as [Hm Hb].
  fold before in Hm, Hb. simpl in Hm, Hb.
  destruct (record_ok before (call_cmd c) (call_output c) (call_exit_code c)
              (call_now c) Hbefore) as [Hlen Hout].
  fold (apply_call before c) in Hlen, Hout. fold after in Hlen, Hout.
  repeat split.
  - rewrite <- Hm. exact Hlen.
  - intros Hmany. rewrite <- Hb.
    destruct (evict_within_budget (token_budget before)
                (deque_append (maxlen before) (entries before) (entry_of_call c)))
      as [Hone|Hfit]; [|exact Hfit].
    exfalso. change (length (entries after) <= 1)%nat in Hone. lia.
  - apply record_entries_suffix.
  - intros Hcap. subst after. simpl. rewrite evict_last.
    apply deque_append_last. by rewrite Hm.
  - exact Hout.
Qed.

(** *** The digest *)

Lemma foldl_snoc_map {A} (f : A -> pystr) (xs : list A) (parts : list pystr) :
  foldl (fun parts x => parts ++ [f x]) parts xs = parts ++ (f <$> xs).
Proof.
  revert parts. induction xs as [|x xs IH]; intros parts; simpl.
  - by rewrite app_nil_r.
  - rewrite IH. by rewrite <- app_assoc.
Qed.

Lemma render_entry_block parts e : render_entry parts e = parts ++ entry_block e.
Proof.
  unfold render_entry, entry_block, shown_lines, status_line.
  destruct (output e) as [|c o] eqn:Ho; simpl truthy; cbv iota.
  - reflexivity.
  - rewrite (foldl_snoc_map (fun line => lit "    " ++ line)).
    rewrite <- app_assoc. reflexivity.
Qed.

Lemma foldl_render_entry es parts :
  foldl render_entry parts es = parts ++ flat_map entry_block es.
Proof.
  revert parts. induction es as [|e es IH]; intros parts; simpl.
  - by rewrite app_nil_r.
  - rewrite IH, render_entry_block. by rewrite <- app_assoc.
Qed.

(** C3 (as the code has it). On an empty log [render_context] is the
    sentinel.  Otherwise it is, joined by line feeds, the blocks of the last
    six entries (of all of them when there are fewer) in their order; a
    block is the status line of the entry followed by the indented first
    three lines (all of them when there are fewer) of the output with the
    white space around it removed.  A blank line inside the output counts
    as one of the three. *)
Theorem render_context_digest (l : SessionLog) :
  let recent := drop (length (entries l) - 6)%nat (entries l) in
  render_context l
  = match entries l with
    | [] => lit "(no previous commands)"
    | _ :: _ => join LF (flat_map entry_block recent)
    end
  /\ recent `suffix_of` entries l
  /\ length recent = Nat.min 6 (length (entries l))
  /\ forall e,
       shown_lines e `prefix_of` splitlines (strip (output e))
       /\ length (shown_lines e) = Nat.min 3 (length (splitlines (strip (output e)))).
Proof.
  intros recent. repeat split.
  - unfold render_context. destruct (entries l) as [|e es] eqn:He; [reflexivity|].
    rewrite foldl_render_entry. reflexivity.
  - apply suffix_drop.
  - subst recent. rewrite length_drop. lia.
  - apply prefix_take.
  - unfold shown_lines. rewrite length_take. lia.
Qed.

(** C3, the claim as worded fails: for an output whose second line is
    blank the digest shows that blank line and stops before the third
    non-blank line. *)
Lemma render_context_keeps_blank_line :
  render_context blank_line_log
  = lit "[" ++ CHECK_MARK ++ lit "] $ ls" ++ LF
    ++ lit "    a" ++ LF ++ lit "    " ++ LF ++ lit "    b"
  /\ render_context_spec blank_line_log
    = lit "[" ++ CHECK_MARK ++ lit "] $ ls" ++ LF
      ++ lit "    a" ++ LF ++ lit "    b" ++ LF ++ lit "    c"
  /\ render_context blank_line_log <> render_context_spec blank_line_log.
Proof.
  repeat split; try (vm_compute; reflexivity).
  vm_compute. discriminate.
Qed.

(** ** The classifier *)

Lemma lstrip_app a b :
  lstrip (a ++ b) = if forallb is_space a then lstrip b else lstrip a ++ b.
Proof.
  induction a as [|c a IH]; simpl; [reflexivity|].
  destruct (is_space c); simpl; [exact IH|reflexivity].
Qed.


Lemma startswith_spec s p : startswith s p = true <-> exists r, s = p ++ r.
Proof.
  revert s. induction p as [|a p IH]; intros s.
  - destruct s; simpl; (split; [intros _; by eexists|done]).
  - destruct s as [|b s]; simpl; [split; [done|intros [r Hr]; discriminate]|].
    rewrite andb_true_iff, N.eqb_eq, IH. split.
    + intros [-> [r ->]]. by exists r.
    + intros [r Hr]. injection Hr as -> ->. split; [done|by exists r].
Qed.

Lemma str_eqb_eq s t : str_eqb s t = true <-> s = t.
Proof. unfold str_eqb. apply bool_decide_eq_true. Qed.




Lemma Qle_bool_false x y : Qle_bool x y = false <-> (y < x)%Q.
Proof.
  split.
  - intros Hf. apply Qnot_le_lt. intros Hle. apply Qle_bool_iff in Hle. congruence.
  - intros Hlt. destruct (Qle_bool x y) eqn:Hb; [|reflexivity].
    apply Qle_bool_iff in Hb. exfalso. exact (Qlt_not_le _ _ Hlt Hb).
Qed.

Lemma classify_score_question `{Unicode} which stripped :
  contains stripped (lit "?") = true ->
  (classify_score which stripped == score_without_question which stripped - 3.0)%Q.
Proof.
  intros Hq. unfold classify_score, score_without_question. cbv zeta.
  rewrite Hq. destruct (short_lowercase stripped); ring.
Qed.

(** The classifications listed in the specification, with [ls] alone on the
    search path. *)
Example classify_examples :
  let which := fun token => str_eqb token (lit "ls") in
  classify_input (H := ascii_only) which (lit "ls -la") = Shell
  /\ classify_input (H := ascii_only) which (lit "what is my ip address") = Natural
  /\ classify_input (H := ascii_only) which (lit "!learn") = Builtin
  /\ classify_input (H := ascii_only) which (lit "cd /tmp") = Shell
  /\ classify_input (H := ascii_only) which (lit "how do I list files?") = Natural.
Proof. repeat split; vm_compute; reflexivity. Qed.

(** For an input with a question mark that reaches the threshold test, the
    result is read off the sum of the other signals. *)
Lemma question_mark_threshold `{Unicode} (which : pystr -> bool) (text : pystr) :
  let stripped := strip text in
  truthy stripped = true ->
  startswith stripped (lit "!") = false ->
  str_in stripped [lit "exit"; lit "quit"] = false ->
  is_cd stripped = false ->
  contains stripped (lit "?") = true ->
  (classify_input which text = Natural
   <-> (score_without_question which stripped < 4.0)%Q)
  /\ (classify_input which text = Shell
      <-> (4.0 <= score_without_question which stripped)%Q).
Proof.
  intros stripped Hne Hbang Hexit Hcd Hq.
  pose proof (classify_score_question which stripped Hq) as Hscore.
  unfold classify_input. cbv zeta. fold stripped.
  rewrite Hne, Hbang, Hexit, Hcd. simpl negb. cbv iota.
  destruct (Qle_bool 1.0 (classify_score which stripped)) eqn:Hle.
  - apply Qle_bool_iff in Hle. rewrite Hscore in Hle. split.
    + split; [discriminate|]. intros Hlt. exfalso. lra.
    + split; [intros _; lra|reflexivity].
  - apply Qle_bool_false in Hle. rewrite Hscore in Hle. split.
    + split; [intros _; lra|reflexivity].
    + split; [discriminate|]. intros Hge. exfalso. lra.
Qed.

(** C6 (as the code has it). For an input with a question mark that is
    neither caught by the first tests (empty, leading [!], [exit]/[quit])
    nor a [cd], the question mark takes 3.0 off the score, and the input is
    Natural exactly when the other signals add up to less than 4.0;
    otherwise it is Shell. *)
Theorem question_mark_penalty `{Unicode} (which : pystr -> bool) (text : pystr) :
  let stripped := strip text in
  truthy stripped = true ->
  startswith stripped (lit "!") = false ->
  str_in stripped [lit "exit"; lit "quit"] = false ->
  is_cd stripped = false ->
  contains stripped (lit "?") = true ->
  (classify_score which stripped == score_without_question which stripped - 3.0)%Q
  /\ (classify_input which text = Natural
      <-> (score_without_question which stripped < 4.0)%Q)
  /\ (classify_input which text = Shell
      <-> (4.0 <= score_without_question which stripped)%Q).
Proof.
  intros stripped Hne Hbang Hexit Hcd Hq. split.
  - by apply classify_score_question.
  - by apply question_mark_threshold.
Qed.

(** The question of the specification, on a host where every token is on
    the search path: the other signals add up to -1.5. *)
Lemma question_mark_penalty_witness :
  classify_input (H := ascii_only) (fun _ => true) (lit "how do I list files?") = Natural.
Proof.
  apply (question_mark_penalty (H := ascii_only) (fun _ => true) (lit "how do I list files?"));
    vm_compute; reflexivity.
Defined.

(** C6, the claim as worded fails: a pipeline started by an explicit path
    scores 3.0 + 2.5 before the question mark and stays Shell after it. *)
Lemma question_mark_can_be_shell :
  contains (strip question_pipeline) (lit "?") = true
  /\ is_cd (strip question_pipeline) = false
  /\ classify_input (H := ascii_only) (fun _ => false) question_pipeline = Shell
  /\ classify_input (H := ascii_only) (fun _ => false) question_pipeline <> Natural.
Proof.
  repeat split; try (vm_compute; reflexivity).
  vm_compute. discriminate.
Qed.

(** The same input is Shell whatever is on the search path and whatever the
    case tables say of non-ASCII text. *)
Lemma question_pipeline_shell `{Unicode} which :
  classify_input which question_pipeline = Shell.
Proof.
  apply question_mark_threshold; try (vm_compute; reflexivity).
  unfold score_without_question, score_before_question. cbv zeta.
  change (strip question_pipeline) with question_pipeline.
  replace (short_lowercase question_pipeline) with false by (vm_compute; reflexivity).
  replace (effective_token_of question_pipeline) with (lit "./build.sh")
    by (vm_compute; reflexivity).
  replace (nl_overlap_of question_pipeline) with 0%nat by (vm_compute; reflexivity).
  replace (isupper (take 1 question_pipeline)) with false by (vm_compute; reflexivity).
  replace (length (split question_pipeline)) with 4%nat by (vm_compute; reflexivity).
  replace (startswith_any (lit "./build.sh") [lit "./"; lit "/"; lit "~"]) with true
    by (vm_compute; reflexivity).
  replace (startswith (lit "./build.sh") (lit "$")) with false by (vm_compute; reflexivity).
  replace (existsb (contains question_pipeline) shell_operators) with true
    by (vm_compute; reflexivity).
  replace (contains question_pipeline (lit ">")) with false by (vm_compute; reflexivity).
  simpl andb. cbv iota.
  destruct (which (lit "./build.sh")); vm_compute; discriminate.
Qed.

(** ** The executor *)

Section ExecutorFacts.
Context `{Unicode} `{Host}.

Lemma str_eqb_refl s : str_eqb s s = true.
Proof. by apply str_eqb_eq. Qed.

Lemma run_eq command s :
  run command s
  = match subprocess_run command (negb (needs_pty command)) (world s) with
    | (Returns proc, w) =>
        (Returns (if needs_pty command then ([], [], returncode proc)
                  else (stdout proc, stderr proc, returncode proc)),
         emit (Spawned command (negb (needs_pty command)) (returncode proc))
           (set_world w s))
    | (Raises e, w) =>
        (Raises e, emit (SpawnFailed command (negb (needs_pty command)) e) (set_world w s))
    end.
Proof.
  unfold run, bind, spawn, ret.
  destruct (needs_pty command); cbn [negb];
    destruct (subprocess_run command _ (world s)) as [[proc|e] w]; reflexivity.
Qed.

(** [run] followed by [record], with the exit code passed through [f]: when
    [run] raises, nothing is recorded. *)
Lemma run_then_record command (f : Z -> Z) s :
  bind (run command) (fun '(out, err, rc) => log_record command (out ++ err) (f rc)) s
  = match subprocess_run command (negb (needs_pty command)) (world s) with
    | (Returns proc, w) => (Returns tt, ran command proc w (f (returncode proc)) s)
    | (Raises e, w) => (Raises e, spawn_failed command e w s)
    end.
Proof.
  unfold bind. rewrite run_eq.
  destruct (subprocess_run command _ (world s)) as [[proc|e] w]; [|reflexivity].
  unfold log_record, ran. destruct (needs_pty command); reflexivity.
Qed.

Lemma chdir_eq path s :
  chdir path s
  = (Returns (fst (os_chdir path (world s))),
     changed_dir path (fst (os_chdir path (world s))) (snd (os_chdir path (world s))) s).
Proof. unfold chdir. by destruct (os_chdir path (world s)). Qed.

Lemma executes_spawned command rc :
  startswith command (lit "cd ") = false ->
  executes command (Spawned command (negb (needs_pty command)) rc) = true.
Proof.
  intros Hcd. simpl. rewrite Hcd, str_eqb_refl. simpl.
  by destruct (needs_pty command).
Qed.

Lemma executes_spawn_failed command e :
  startswith command (lit "cd ") = false ->
  executes command (SpawnFailed command (negb (needs_pty command)) e) = true.
Proof.
  intros Hcd. simpl. rewrite Hcd, str_eqb_refl. simpl.
  by destruct (needs_pty command).
Qed.

Lemma executes_changed_dir command ok :
  startswith command (lit "cd ") = true ->
  executes command (ChangedDir (os_expanduser (strip (drop 3 command))) ok) = true.
Proof. intros Hcd. simpl. by rewrite Hcd, str_eqb_refl. Qed.

Lemma ends_as_cons ev evs r :
  raised ev = false -> ends_as r evs -> ends_as r (ev :: evs).
Proof.
  unfold ends_as. destruct evs as [|ev' evs]; [|by rewrite last_cons_cons].
  intros Hev Hr. simpl in *. by destruct ev.
Qed.

Lemma stepping_ends_as_cons ev evs r :
  raised ev = false -> stepping_ends_as r evs -> stepping_ends_as r (ev :: evs).
Proof.
  unfold stepping_ends_as. destruct evs as [|ev' evs]; [|by rewrite last_cons_cons].
  intros Hev Hr. simpl in *. by destruct ev.
Qed.

(** *** Sequential mode *)

(** A step of Sequential mode that runs a process: the exit code recorded
    is the one of the process; when [run] raises, the run ends there and
    nothing is recorded. *)
Lemma _run_sequence_spawn command rest s :
  startswith command (lit "cd ") = false ->
  _run_sequence (command :: rest) s
  = match subprocess_run command (negb (needs_pty command)) (world s) with
    | (Returns proc, w) =>
        if negb (returncode proc =? 0)
        then (Returns tt, ran command proc w (returncode proc) s)
        else _run_sequence rest (ran command proc w (returncode proc) s)
    | (Raises e, w) => (Raises e, spawn_failed command e w s)
    end.
Proof.
  intros Hcd. cbn [_run_sequence]. rewrite Hcd.
  unfold bind. rewrite run_eq.
  destruct (subprocess_run command _ (world s)) as [[proc|e] w]; [|reflexivity].
  unfold log_record, ran, ret.
  destruct (needs_pty command); destruct (negb (returncode proc =? 0)); reflexivity.
Qed.

Lemma _run_sequence_chdir command rest s :
  startswith command (lit "cd ") = true ->
  let path := os_expanduser (strip (drop 3 command)) in
  _run_sequence (command :: rest) s
  = if fst (os_chdir path (world s))
    then _run_sequence rest
           (changed_dir path true (snd (os_chdir path (world s))) s)
    else (Returns tt, changed_dir path false (snd (os_chdir path (world s))) s).
Proof.
  intros Hcd path. cbn [_run_sequence]. rewrite Hcd.
  unfold bind. fold path. rewrite chdir_eq.
  destruct (os_chdir path (world s)) as [[] w]; reflexivity.
Qed.

(** Sequential mode reads nothing from the terminal, its events are those
    of [sequence_run], and it raises only when its last call did. *)
Lemma _run_sequence_events cmds s :
  exists evs r s',
    _run_sequence cmds s = (r, s')
    /\ trace s' = trace s ++ evs
    /\ stdin s' = stdin s
    /\ sequence_run cmds evs
    /\ ends_as r evs.
Proof.
  revert s. induction cmds as [|command rest IH]; intros s.
  - exists [], (Returns tt), s. rewrite app_nil_r. done.
  - destruct (startswith command (lit "cd ")) eqn:Hcd.
    + rewrite (_run_sequence_chdir command rest s Hcd).
      set (path := os_expanduser (strip (drop 3 command))).
      destruct (os_chdir path (world s)) as [[] w]; cbn [fst snd].
      * destruct (IH (changed_dir path true w s))
          as (evs & r & s' & -> & Htr & Hin & Hrun & Hend).
        exists (ChangedDir path true :: evs), r, s'. repeat split; try done.
        -- rewrite Htr. simpl. by rewrite <- app_assoc.
        -- by apply executes_changed_dir.
        -- by apply ends_as_cons.
      * exists [ChangedDir path false], (Returns tt), (changed_dir path false w s).
        repeat split; try done. by apply executes_changed_dir.
    + rewrite (_run_sequence_spawn command rest s Hcd).
      destruct (subprocess_run command _ (world s)) as [[proc|e] w].
      * set (s1 := ran command proc w (returncode proc) s).
        set (ev := Spawned command (negb (needs_pty command)) (returncode proc)).
        destruct (negb (returncode proc =? 0)) eqn:Hrc.
        -- exists [ev], (Returns tt), s1. repeat split; try done.
           ++ by apply executes_spawned.
           ++ simpl. by rewrite Hrc.
        -- destruct (IH s1) as (evs & r & s' & -> & Htr & Hin & Hrun & Hend).
           exists (ev :: evs), r, s'. repeat split; try done.
           ++ rewrite Htr. simpl. by rewrite <- app_assoc.
           ++ by apply executes_spawned.
           ++ simpl. by rewrite Hrc.
           ++ by apply ends_as_cons.
      * exists [SpawnFailed command (negb (needs_pty command)) e], (Raises e),
          (spawn_failed command e w s).
        repeat split; try done. by apply executes_spawn_failed.
Qed.

(** What [run_until] says, spelled out: the events are the executions of a
    prefix of the commands, in order; an execution that [stop] marks is the
    last one; and the prefix is the whole list unless the last execution is
    so marked. *)
Lemma run_until_spelled_out stop cmds evs :
  run_until stop cmds evs ->
  Forall2 (fun command ev => executes command ev = true) (take (length evs) cmds) evs
  /\ (forall i ev, evs !! i = Some ev -> stop ev = true -> length evs = S i)
  /\ ((length evs < length cmds)%nat -> exists ev, last evs = Some ev /\ stop ev = true).
Proof.
  revert evs. induction cmds as [|command rest IH]; intros [|ev evs]; simpl; try done.
  - intros _. repeat split; [constructor|done|lia].
  - intros [Hex Hrest]. destruct (stop ev) eqn:Hf.
    + subst evs. repeat split.
      * rewrite take_0. by repeat constructor.
      * intros [|i] ev' Hi _; [done|]. simpl in Hi. discriminate.
      * intros _. by exists ev.
    + destruct (IH evs Hrest) as (Hall & Hstop & Hlast). repeat split.
      * by constructor.
      * intros [|i] ev' Hi Hf'; simpl in Hi.
        -- injection Hi as <-. congruence.
        -- f_equal. by eapply Hstop.
      * intros Hlt. destruct Hlast as (ev' & Hl & Hf'); [lia|].
        exists ev'. split; [|done].
        destruct evs as [|ev0 evs]; [discriminate|]. exact Hl.
Qed.

End ExecutorFacts.

(** C4. Sequential mode takes the commands one at a time in their order and
    stops at the first one that exits with a non-zero code: the executions
    it makes are those of a prefix of the list, an execution that failed is
    the last one, and the whole list is executed unless the last execution
    failed.  A call of [run] that raises counts as failed: the run ends
    there, by that exception; otherwise it ends normally.  With [a], [b],
    [c] where [a] exits with zero and [b] does not, [a] and [b] are run and
    [c] is not. *)
Theorem sequential_stops_at_first_failure `{Host} :
  (forall cmds s, exists evs r s',
      _run_sequence cmds s = (r, s')
      /\ trace s' = trace s ++ evs
      /\ Forall2 (fun command ev => executes command ev = true)
           (take (length evs) cmds) evs
      /\ (forall i ev, evs !! i = Some ev -> failed ev = true -> length evs = S i)
      /\ ((length evs < length cmds)%nat ->
          exists ev, last evs = Some ev /\ failed ev = true)
      /\ ends_as r evs)
  /\ (forall s pa wa pb wb,
        subprocess_run (lit "a") true (world s) = (Returns pa, wa) ->
        returncode pa = 0 ->
        subprocess_run (lit "b") true wa = (Returns pb, wb) ->
        returncode pb <> 0 ->
        exists s',
          _run_sequence [lit "a"; lit "b"; lit "c"] s = (Returns tt, s')
          /\ trace s' = trace s ++ [Spawned (lit "a") true 0;
                                    Spawned (lit "b") true (returncode pb)]).
Proof.
  split.
  - intros cmds s.
    destruct (_run_sequence_events cmds s) as (evs & r & s' & Heq & Htr & _ & Hrun & Hend).
    exists evs, r, s'. split; [exact Heq|]. split; [exact Htr|].
    destruct (run_until_spelled_out failed cmds evs Hrun) as (Hall & Hstop & Hlast).
    done.
  - intros s pa wa pb wb Ha Hpa Hb Hpb.
    rewrite (_run_sequence_spawn (lit "a") [lit "b"; lit "c"] s eq_refl).
    change (negb (needs_pty (lit "a"))) with true.
    rewrite Ha, Hpa. change (negb (0 =? 0)) with false. cbv iota.
    rewrite (_run_sequence_spawn (lit "b") [lit "c"] (ran (lit "a") pa wa 0 s) eq_refl).
    change (negb (needs_pty (lit "b"))) with true.
    change (world (ran (lit "a") pa wa 0 s)) with wa.
    rewrite Hb. apply Z.eqb_neq in Hpb. rewrite Hpb. simpl negb. cbv iota.
    eexists. split; [reflexivity|].
    unfold ran. cbn [trace]. rewrite <- app_assoc, Hpa.
    change (needs_pty (lit "a")) with false. change (needs_pty (lit "b")) with false.
    reflexivity.
Qed.

(** On the example host [b] fails: [a] and [b] are run, [c] is not. *)
Lemma sequential_stops_at_first_failure_witness :
  exists s',
    @_run_sequence example_host [lit "a"; lit "b"; lit "c"] (example_state [] false)
    = (Returns tt, s')
    /\ trace s' = [Spawned (lit "a") true 0; Spawned (lit "b") true 1].
Proof.
  refine (proj2 (@sequential_stops_at_first_failure example_host)
            (example_state [] false) _ tt _ tt eq_refl eq_refl eq_refl _).
  vm_compute. discriminate.
Defined.

(** *** Stepping mode *)

Section SteppingFacts.
Context `{Unicode} `{Host}.

Lemma _run_stepping_eof command rest s :
  stdin s = [] -> _run_stepping (command :: rest) s = (Raises EOFError, s).
Proof.
  intros Hin. cbn [_run_stepping]. unfold bind, input. by rewrite Hin.
Qed.

Lemma _run_stepping_quit command rest reply more s :
  stdin s = reply :: more -> read_choice reply = QuitAll ->
  _run_stepping (command :: rest) s = (Returns tt, set_stdin more s).
Proof.
  intros Hin Hq. cbn [_run_stepping]. unfold bind at 1, input. by rewrite Hin, Hq.
Qed.

Lemma _run_stepping_skip command rest reply more s :
  stdin s = reply :: more -> read_choice reply = SkipIt ->
  _run_stepping (command :: rest) s = _run_stepping rest (set_stdin more s).
Proof.
  intros Hin Hq. cbn [_run_stepping]. unfold bind at 1, input. by rewrite Hin, Hq.
Qed.

(** A command that is run in Stepping mode is recorded with exit code 0,
    whatever code its process returned; when [run] raises, the run ends
    there and nothing is recorded. *)
Lemma _run_stepping_spawn command rest reply more s :
  stdin s = reply :: more -> read_choice reply = RunIt ->
  startswith command (lit "cd ") = false ->
  _run_stepping (command :: rest) s
  = match subprocess_run command (negb (needs_pty command)) (world s) with
    | (Returns proc, w) => _run_stepping rest (ran command proc w 0 (set_stdin more s))
    | (Raises e, w) => (Raises e, spawn_failed command e w (set_stdin more s))
    end.
Proof.
  intros Hin Hq Hcd.
  cbn [_run_stepping]. unfold bind at 1, input. rewrite Hin, Hq, Hcd.
  unfold bind. rewrite run_eq. cbn [world set_stdin].
  destruct (subprocess_run command _ (world s)) as [[proc|e] w]; [|reflexivity].
  unfold log_record, ran. destruct (needs_pty command); reflexivity.
Qed.

Lemma _run_stepping_chdir command rest reply more s :
  stdin s = reply :: more -> read_choice reply = RunIt ->
  startswith command (lit "cd ") = true ->
  let path := os_expanduser (strip (drop 3 command)) in
  _run_stepping (command :: rest) s
  = _run_stepping rest
      (changed_dir path (fst (os_chdir path (world s))) (snd (os_chdir path (world s)))
         (set_stdin more s)).
Proof.
  intros Hin Hq Hcd path.
  cbn [_run_stepping]. unfold bind at 1, input. rewrite Hin, Hq, Hcd.
  unfold bind. fold path. rewrite chdir_eq. reflexivity.
Qed.

(** The events of Stepping mode are the executions of its plan, cut short
    only by a call that raises. *)
Lemma _run_stepping_events cmds s :
  exists evs r s',
    _run_stepping cmds s = (r, s')
    /\ trace s' = trace s ++ evs
    /\ stepping_run (stepping_plan cmds (stdin s)) evs
    /\ stepping_ends_as r evs.
Proof.
  revert s. induction cmds as [|command rest IH]; intros s.
  - exists [], (Returns tt), s. rewrite app_nil_r. repeat split. by left.
  - destruct (stdin s) as [|reply more] eqn:Hin.
    + exists [], (Raises EOFError), s. rewrite app_nil_r.
      repeat split; [by apply _run_stepping_eof|by right].
    + cbn [stepping_plan]. destruct (read_choice reply) eqn:Hq.
      * destruct (startswith command (lit "cd ")) eqn:Hcd.
        -- rewrite (_run_stepping_chdir command rest reply more s Hin Hq Hcd).
           set (path := os_expanduser (strip (drop 3 command))).
           destruct (os_chdir path (world s)) as [ok w]. cbn [fst snd].
           destruct (IH (changed_dir path ok w (set_stdin more s)))
             as (evs & r & s' & -> & Htr & Hrun & Hend).
           exists (ChangedDir path ok :: evs), r, s'. repeat split.
           ++ rewrite Htr. cbn [trace changed_dir set_stdin]. by rewrite <- app_assoc.
           ++ by apply executes_changed_dir.
           ++ exact Hrun.
           ++ by apply stepping_ends_as_cons.
        -- rewrite (_run_stepping_spawn command rest reply more s Hin Hq Hcd).
           destruct (subprocess_run command _ (world s)) as [[proc|e] w].
           ++ destruct (IH (ran command proc w 0 (set_stdin more s)))
                as (evs & r & s' & -> & Htr & Hrun & Hend).
              exists (Spawned command (negb (needs_pty command)) (returncode proc) :: evs),
                r, s'.
              repeat split.
              ** rewrite Htr. cbn [trace ran set_stdin]. by rewrite <- app_assoc.
              ** by apply executes_spawned.
              ** exact Hrun.
              ** by apply stepping_ends_as_cons.
           ++ exists [SpawnFailed command (negb (needs_pty command)) e], (Raises e),
                (spawn_failed command e w (set_stdin more s)).
              repeat split. by apply executes_spawn_failed.
      * rewrite (_run_stepping_skip command rest reply more s Hin Hq).
        destruct (IH (set_stdin more s)) as (evs & r & s' & -> & Htr & Hrun & Hend).
        exists evs, r, s'. repeat split; done.
      * rewrite (_run_stepping_quit command rest reply more s Hin Hq).
        exists [], (Returns tt), (set_stdin more s). rewrite app_nil_r.
        repeat split. by left.
Qed.

Lemma read_choice_examples :
  read_choice (lit "y") = RunIt /\ read_choice (lit "") = RunIt
  /\ read_choice (lit "n") = SkipIt /\ read_choice (lit "q") = QuitAll.
Proof. repeat split; vm_compute; reflexivity. Qed.

(** An execution of a command that is no [cd] is a call of [run]. *)
Lemma executes_inv command ev :
  startswith command (lit "cd ") = false ->
  executes command ev = true ->
  (exists rc, ev = Spawned command (negb (needs_pty command)) rc)
  \/ (exists e, ev = SpawnFailed command (negb (needs_pty command)) e).
Proof.
  intros Hcd. destruct ev as [c capture rc|c capture e|path ok|prompt]; simpl;
    try rewrite Hcd; simpl; try discriminate.
  - rewrite andb_true_iff, str_eqb_eq. intros [-> Hcap].
    apply Bool.eqb_prop in Hcap as ->. left. by exists rc.
  - rewrite andb_true_iff, str_eqb_eq. intros [-> Hcap].
    apply Bool.eqb_prop in Hcap as ->. right. by exists e.
Qed.

End SteppingFacts.

(** C5. In Stepping mode a reply [y] or an empty reply runs the current
    command, [n] skips it and goes on, [q] ends the sequence at once: the
    executions made are those of the commands of [stepping_plan], in order,
    all of them unless a call of [run] raises, which ends the run there by
    that exception.  With [a], [b], [c] and the replies [y], [q] only [a]
    is run; with the replies [y], [n], [y], once [a] has returned, [c] is
    run and [b] is not. *)
Theorem stepping_follows_replies `{Unicode} `{Host} :
  (read_choice (lit "y") = RunIt /\ read_choice (lit "") = RunIt
   /\ read_choice (lit "n") = SkipIt /\ read_choice (lit "q") = QuitAll)
  /\ (forall cmds s, exists evs r s',
        _run_stepping cmds s = (r, s')
        /\ trace s' = trace s ++ evs
        /\ Forall2 (fun command ev => executes command ev = true)
             (take (length evs) (stepping_plan cmds (stdin s))) evs
        /\ (forall i ev, evs !! i = Some ev -> raised ev = true -> length evs = S i)
        /\ ((length evs < length (stepping_plan cmds (stdin s)))%nat ->
            exists ev, last evs = Some ev /\ raised ev = true)
        /\ stepping_ends_as r evs)
  /\ (forall s more,
        stdin s = [lit "y"; lit "q"] ++ more ->
        exists ev r s',
          _run_stepping [lit "a"; lit "b"; lit "c"] s = (r, s')
          /\ trace s' = trace s ++ [ev]
          /\ ((exists rc, ev = Spawned (lit "a") true rc) /\ r = Returns tt /\ stdin s' = more
              \/ (exists e, ev = SpawnFailed (lit "a") true e /\ r = Raises e)))
  /\ (forall s more pa wa,
        stdin s = [lit "y"; lit "n"; lit "y"] ++ more ->
        subprocess_run (lit "a") true (world s) = (Returns pa, wa) ->
        exists ev r s',
          _run_stepping [lit "a"; lit "b"; lit "c"] s = (r, s')
          /\ trace s' = trace s ++ [Spawned (lit "a") true (returncode pa); ev]
          /\ ((exists rc, ev = Spawned (lit "c") true rc) /\ r = Returns tt /\ stdin s' = more
              \/ (exists e, ev = SpawnFailed (lit "c") true e /\ r = Raises e))).
Proof.
  destruct read_choice_examples as (Hy & He & Hn & Hq).
  split; [exact read_choice_examples|].
  split; [|split].
  - intros cmds s.
    destruct (_run_stepping_events cmds s) as (evs & r & s' & Heq & Htr & Hrun & Hend).
    exists evs, r, s'. split; [exact Heq|]. split; [exact Htr|].
    destruct (run_until_spelled_out raised _ evs Hrun) as (Hall & Hstop & Hlast).
    done.
  - intros s more Hin.
    rewrite (_run_stepping_spawn (lit "a") [lit "b"; lit "c"] (lit "y")
               (lit "q" :: more) s Hin Hy eq_refl).
    change (negb (needs_pty (lit "a"))) with true.
    destruct (subprocess_run (lit "a") true (world s)) as [[pa|e] wa].
    + rewrite (_run_stepping_quit (lit "b") [lit "c"] (lit "q") more
                 (ran (lit "a") pa wa 0 (set_stdin (lit "q" :: more) s)) eq_refl Hq).
      eexists _, _, _. split; [reflexivity|]. split; [reflexivity|].
      left. split; [by eexists|]. split; reflexivity.
    + eexists _, _, _. split; [reflexivity|]. split; [reflexivity|].
      right. by exists e.
  - intros s more pa wa Hin Ha.
    rewrite (_run_stepping_spawn (lit "a") [lit "b"; lit "c"] (lit "y")
               (lit "n" :: lit "y" :: more) s Hin Hy eq_refl).
    change (negb (needs_pty (lit "a"))) with true. rewrite Ha.
    rewrite (_run_stepping_skip (lit "b") [lit "c"] (lit "n") (lit "y" :: more)
               (ran (lit "a") pa wa 0 (set_stdin (lit "n" :: lit "y" :: more) s)) eq_refl Hn).
    rewrite (_run_stepping_spawn (lit "c") [] (lit "y") more
               (set_stdin (lit "y" :: more) (ran (lit "a") pa wa 0
                  (set_stdin (lit "n" :: lit "y" :: more) s)))
               eq_refl Hy eq_refl).
    change (negb (needs_pty (lit "c"))) with true.
    destruct (subprocess_run (lit "c") true _) as [[pc|e] wc].
    + eexists _, _, _. split; [reflexivity|]. split.
      * unfold ran. cbn [trace set_stdin]. rewrite <- app_assoc. reflexivity.
      * left. split; [by eexists|]. split; reflexivity.
    + eexists _, _, _. split; [reflexivity|]. split.
      * unfold spawn_failed, ran. cbn [trace set_stdin]. rewrite <- app_assoc. reflexivity.
      * right. by exists e.
Qed.

(** On the example host: the replies [y], [q] run [a] alone, and the
    replies [y], [n], [y] run [a] and [c]. *)
Lemma stepping_follows_replies_witness :
  (exists ev r s',
     @_run_stepping ascii_only example_host [lit "a"; lit "b"; lit "c"]
       (example_state [lit "y"; lit "q"] false) = (r, s')
     /\ trace s' = [] ++ [ev]
     /\ ((exists rc, ev = Spawned (lit "a") true rc) /\ r = Returns tt /\ stdin s' = []
         \/ (exists e, ev = SpawnFailed (lit "a") true e /\ r = Raises e)))
  /\ (exists ev r s',
        @_run_stepping ascii_only example_host [lit "a"; lit "b"; lit "c"]
          (example_state [lit "y"; lit "n"; lit "y"] false) = (r, s')
        /\ trace s' = [] ++ [Spawned (lit "a") true 0; ev]
        /\ ((exists rc, ev = Spawned (lit "c") true rc) /\ r = Returns tt /\ stdin s' = []
            \/ (exists e, ev = SpawnFailed (lit "c") true e /\ r = Raises e))).
Proof.
  destruct (@stepping_follows_replies ascii_only example_host) as (_ & _ & Hyq & Hyny).
  split.
  - exact (Hyq (example_state [lit "y"; lit "q"] false) [] eq_refl).
  - exact (Hyny (example_state [lit "y"; lit "n"; lit "y"] false) [] _ tt eq_refl eq_refl).
Defined.

(** C1, Stepping mode on the example host, where [false] exits with code 1:
    the process is seen to return 1 and the log records 0, while Sequential
    mode on the same command records 1. *)
Theorem stepping_records_exit_code_zero :
  let stepped :=
    snd (@_run_stepping ascii_only example_host [lit "false"; lit "c"]
           (example_state [lit "y"; lit "n"] false)) in
  let sequenced :=
    snd (@_run_sequence example_host [lit "false"; lit "c"] (example_state [] false)) in
  trace stepped = [Spawned (lit "false") true 1]
  /\ (fun e => (cmd e, exit_code e)) <$> entries (session_log stepped) = [(lit "false", 0)]
  /\ trace sequenced = [Spawned (lit "false") true 1]
  /\ (fun e => (cmd e, exit_code e)) <$> entries (session_log sequenced) = [(lit "false", 1)].
Proof. repeat split; vm_compute; reflexivity. Qed.

(** *** Single-confirm execution and the dispatcher *)

Section DispatcherFacts.
Context `{Unicode} `{Host}.

Lemma _handle_cd_eq args s :
  let path :=
    if truthy (strip args) then os_expanduser (strip args) else os_expanduser (lit "~") in
  _handle_cd args s
  = (Returns tt,
     changed_dir path (fst (os_chdir path (world s))) (snd (os_chdir path (world s))) s).
Proof.
  intros path. unfold _handle_cd, bind. fold path. rewrite chdir_eq. reflexivity.
Qed.


Lemma _exec_single_cancel command explanation reply more s :
  stdin s = reply :: more -> reply <> [] ->
  _exec_single command explanation s = (Returns tt, set_stdin more s).
Proof.
  intros Hin Hne. unfold _exec_single, bind at 1, input. rewrite Hin.
  destruct reply; [done|reflexivity].
Qed.

(** A confirmed command that is not a [cd] is run and recorded with the
    exit code of its process; when [run] raises, nothing is recorded. *)
Lemma _exec_single_spawn command explanation more s :
  stdin s = [] :: more -> startswith command (lit "cd ") = false ->
  _exec_single command explanation s
  = match subprocess_run command (negb (needs_pty command)) (world s) with
    | (Returns proc, w) =>
        (Returns tt, ran command proc w (returncode proc) (set_stdin more s))
    | (Raises e, w) => (Raises e, spawn_failed command e w (set_stdin more s))
    end.
Proof.
  intros Hin Hcd.
  unfold _exec_single, bind at 1, input. rewrite Hin. cbn [truthy]. rewrite Hcd.
  exact (run_then_record command (fun rc => rc) (set_stdin more s)).
Qed.

Lemma _exec_single_chdir command explanation more s :
  stdin s = [] :: more -> startswith command (lit "cd ") = true ->
  _exec_single command explanation s
  = (Returns tt,
     changed_dir (cd_target command)
       (fst (os_chdir (cd_target command) (world s)))
       (snd (os_chdir (cd_target command) (world s))) (set_stdin more s)).
Proof.
  intros Hin Hcd.
  unfold _exec_single, bind at 1, input. rewrite Hin. cbn [truthy]. rewrite Hcd.
  exact (_handle_cd_eq (drop 3 command) (set_stdin more s)).
Qed.





End DispatcherFacts.

(** C10. In single-confirm execution the reply decides: after an empty
    reply the command is executed (one call, a change of directory for a
    command that starts with [cd ], a call of [run] otherwise, which may
    raise and then ends the handler by that exception); after any other
    reply nothing is called, the handler returns, and the world and the
    session log are as before.  So the command runs exactly when the reply
    is empty. *)
Theorem single_confirm_runs_iff_reply_empty `{Host}
    (command : pystr) (explanation : option pystr) (s : State) (reply : pystr)
    (more : list pystr) :
  stdin s = reply :: more ->
  exists r s',
    _exec_single command explanation s = (r, s')
    /\ stdin s' = more
    /\ (reply = [] ->
        exists ev,
          trace s' = trace s ++ [ev]
          /\ (if startswith command (lit "cd ")
              then exists ok, ev = ChangedDir (cd_target command) ok
              else (exists rc, ev = Spawned command (negb (needs_pty command)) rc)
                   \/ (exists e, ev = SpawnFailed command (negb (needs_pty command)) e))
          /\ ends_as r [ev])
    /\ (reply <> [] ->
        r = Returns tt
        /\ trace s' = trace s /\ world s' = world s /\ session_log s' = session_log s)
    /\ (reply = [] <-> trace s' <> trace s).
Proof.
  intros Hin. destruct reply as [|c reply].
  - assert (Hgrow : forall ev, trace s ++ [ev] <> trace s).
    { intros ev Heq. apply (f_equal length) in Heq.
      rewrite length_app in Heq. simpl in Heq. lia. }
    destruct (startswith command (lit "cd ")) eqn:Hcd.
    + rewrite (_exec_single_chdir command explanation more s Hin Hcd).
      eexists _, _. split; [reflexivity|]. split; [reflexivity|]. split; [|split].
      * intros _. eexists. split; [reflexivity|]. split; [by eexists|reflexivity].
      * intros Hne. done.
      * split; [intros _; apply Hgrow|done].
    + rewrite (_exec_single_spawn command explanation more s Hin Hcd).
      destruct (subprocess_run command _ (world s)) as [[proc|e] w].
      * eexists _, _. split; [reflexivity|]. split; [reflexivity|]. split; [|split].
        -- intros _. eexists. split; [reflexivity|].
           split; [left; by eexists|reflexivity].
        -- intros Hne. done.
        -- split; [intros _; apply Hgrow|done].
      * eexists _, _. split; [reflexivity|]. split; [reflexivity|]. split; [|split].
        -- intros _. eexists. split; [reflexivity|].
           split; [right; by eexists|reflexivity].
        -- intros Hne. done.
        -- split; [intros _; apply Hgrow|done].
  - rewrite (_exec_single_cancel command explanation (c :: reply) more s Hin); [|done].
    eexists _, _. split; [reflexivity|]. split; [reflexivity|]. split; [|split].
    + intros Heq. discriminate.
    + intros _. done.
    + split; [discriminate|]. intros Hne. exfalso. by apply Hne.
Qed.

(** On the example host the reply [y] cancels [ls -la]: nothing is spawned
    and the log stays empty. *)
Lemma single_confirm_runs_iff_reply_empty_witness :
  exists r s',
    @_exec_single example_host (lit "ls -la") None (example_state [lit "y"] false)
    = (r, s')
    /\ stdin s' = []
    /\ (lit "y" = [] ->
        exists ev,
          trace s' = [] ++ [ev]
          /\ (if startswith (lit "ls -la") (lit "cd ")
              then exists ok, ev = ChangedDir (@cd_target example_host (lit "ls -la")) ok
              else (exists rc,
                      ev = Spawned (lit "ls -la") (negb (needs_pty (lit "ls -la"))) rc)
                   \/ (exists e,
                         ev = SpawnFailed (lit "ls -la")
                                (negb (needs_pty (lit "ls -la"))) e))
          /\ ends_as r [ev])
    /\ (lit "y" <> [] ->
        r = Returns tt
        /\ trace s' = [] /\ world s' = tt
        /\ session_log s' = new_log SESSION_CAPACITY TOKEN_BUDGET)
    /\ (lit "y" = [] <-> trace s' <> []).
Proof.
  exact (@single_confirm_runs_iff_reply_empty example_host (lit "ls -la") None
           (example_state [lit "y"] false) (lit "y") [] eq_refl).
Defined.


(** ** The translator *)

Lemma parse_commands_spec raw : parse_commands raw = lines_spec raw.
Proof.
  unfold parse_commands, lines_spec.
  induction (splitlines raw) as [|ln lns IH]; [reflexivity|].
  cbn [flat_map fmap list_fmap List.filter]. rewrite <- IH.
  destruct (truthy (strip ln)); reflexivity.
Qed.

Section TranslatorFacts.
Context `{Host}.
Variables (user_input cwd os_shell session_context : pystr).
Variable ask_ai_fn : pystr -> Exec (option pystr).

Abbreviation prompt := (translate_prompt user_input cwd os_shell session_context).

Lemma translate_nothing learning s s1 :
  ask_ai_fn prompt s = (Returns None, s1) \/ ask_ai_fn prompt s = (Returns (Some []), s1) ->
  translate user_input cwd os_shell learning session_context ask_ai_fn s
  = (Returns {| commands := []; explanation := None |}, s1).
Proof.
  intros Hask. unfold translate, bind.
  destruct Hask as [-> | ->]; reflexivity.
Qed.

Lemma translate_plain raw s s1 :
  ask_ai_fn prompt s = (Returns (Some raw), s1) -> raw <> [] ->
  translate user_input cwd os_shell false session_context ask_ai_fn s
  = (Returns {| commands := parse_commands raw; explanation := None |}, s1).
Proof.
  intros Hask Hne. unfold translate, bind. rewrite Hask.
  destruct raw; [done|reflexivity].
Qed.

(** With learning mode on and a command at hand, [translate] makes the
    second call and returns according to its outcome. *)
Lemma translate_learning raw s s1 o s2 :
  ask_ai_fn prompt s = (Returns (Some raw), s1) -> raw <> [] ->
  parse_commands raw <> [] ->
  ask_ai_fn (tip_prompt (parse_commands raw)) s1 = (o, s2) ->
  translate user_input cwd os_shell true session_context ask_ai_fn s
  = match o with
    | Returns (Some (c :: tip)) =>
        (Returns {| commands := parse_commands raw; explanation := Some (c :: tip) |}, s2)
    | Returns _ =>
        (Returns {| commands := parse_commands raw; explanation := None |}, s2)
    | Raises e =>
        if is_Exception e
        then (Returns {| commands := parse_commands raw; explanation := None |}, s2)
        else (Raises e, s2)
    end.
Proof.
  intros Hask Hne Hcmds Htip. unfold translate, bind at 1. rewrite Hask.
  destruct raw as [|c0 raw]; [done|].
  destruct (parse_commands (c0 :: raw)) as [|c1 cmds] eqn:Hp; [done|].
  cbn [andb]. unfold try_except_Exception, bind. rewrite Htip.
  destruct o as [[[|c tip]|]|e]; try reflexivity.
Qed.

End TranslatorFacts.

(** C8. When the provider returns nothing ([None] or the empty string),
    [translate] returns no command.  Otherwise the commands are the lines
    of the response, each trimmed, the blank ones dropped, in the order of
    the response: so it is without learning mode, and so it is with learning
    mode whenever [translate] returns.  The response [ls], (blank), [ls -la]
    gives the commands [ls] and [ls -la]. *)
Theorem translate_commands `{Host} (user_input cwd os_shell session_context : pystr)
    (ask_ai_fn : pystr -> Exec (option pystr)) (s : State) :
  let prompt := translate_prompt user_input cwd os_shell session_context in
  (forall learning s1,
      ask_ai_fn prompt s = (Returns None, s1) \/ ask_ai_fn prompt s = (Returns (Some []), s1) ->
      translate user_input cwd os_shell learning session_context ask_ai_fn s
      = (Returns {| commands := []; explanation := None |}, s1))
  /\ (forall raw s1,
        ask_ai_fn prompt s = (Returns (Some raw), s1) -> raw <> [] ->
        translate user_input cwd os_shell false session_context ask_ai_fn s
        = (Returns {| commands := lines_spec raw; explanation := None |}, s1)
        /\ match translate user_input cwd os_shell true session_context ask_ai_fn s with
           | (Returns result, _) => commands result = lines_spec raw
           | (Raises e, _) => is_Exception e = false
           end)
  /\ lines_spec (lit "ls" ++ LF ++ LF ++ lit "ls -la" ++ LF) = [lit "ls"; lit "ls -la"].
Proof.
  intros prompt. split; [|split].
  - intros learning s1 Hask. by apply translate_nothing.
  - intros raw s1 Hask Hne. rewrite <- parse_commands_spec. split.
    + by apply translate_plain.
    + destruct (parse_commands raw) as [|c cmds] eqn:Hp.
      * unfold translate, bind. fold prompt. rewrite Hask.
        destruct raw; [done|]. rewrite Hp. reflexivity.
      * destruct (ask_ai_fn (tip_prompt (c :: cmds)) s1) as [o s2] eqn:Htip.
        rewrite <- Hp in Htip.
        rewrite (translate_learning user_input cwd os_shell session_context ask_ai_fn
                   raw s s1 o s2 Hask Hne); [|by rewrite Hp|exact Htip].
        destruct o as [[[|c' tip]|]|e]; try exact Hp.
        destruct (is_Exception e) eqn:He; [exact Hp|exact He].
  - vm_compute. reflexivity.
Qed.

(** On the example host the provider answers with [ls], (blank), [ls -la]:
    the commands are [ls] and [ls -la]. *)
Lemma translate_commands_witness :
  @translate example_host (lit "list files") (lit "/home/user") (lit "Linux/bash") false
    (lit "(no previous commands)") (@ask example_host) (example_state [] false)
  = (Returns {| commands := [lit "ls"; lit "ls -la"]; explanation := None |},
     snd (@ask example_host
            (translate_prompt (lit "list files") (lit "/home/user") (lit "Linux/bash")
               (lit "(no previous commands)"))
            (example_state [] false))).
Proof.
  refine (proj1 (proj1 (proj2 (@translate_commands example_host (lit "list files")
            (lit "/home/user") (lit "Linux/bash") (lit "(no previous commands)")
            (@ask example_host) (example_state [] false)))
            (lit "ls" ++ LF ++ LF ++ lit "ls -la" ++ LF) _ eq_refl _)).
  discriminate.
Defined.

(** C9. With learning mode on and at least one command, [translate] makes
    a second call, for the explanation.  If that call raises an exception,
    returns [None] or returns the empty string, [translate] still returns,
    with the commands it returns without learning mode and with no
    explanation; a non-empty answer becomes the explanation, the commands
    being the same.  (The exceptions meant are the instances of Python's
    [Exception], which is what [except Exception] catches.) *)
Theorem explanation_failure_is_swallowed `{Host}
    (user_input cwd os_shell session_context : pystr)
    (ask_ai_fn : pystr -> Exec (option pystr)) (s s1 s2 : State) (raw : pystr)
    (o : outcome (option pystr)) :
  let prompt := translate_prompt user_input cwd os_shell session_context in
  let cmds := parse_commands raw in
  ask_ai_fn prompt s = (Returns (Some raw), s1) ->
  raw <> [] ->
  cmds <> [] ->
  ask_ai_fn (tip_prompt cmds) s1 = (o, s2) ->
  translate user_input cwd os_shell false session_context ask_ai_fn s
  = (Returns {| commands := cmds; explanation := None |}, s1)
  /\ match o with
     | Returns (Some (c :: tip)) =>
         translate user_input cwd os_shell true session_context ask_ai_fn s
         = (Returns {| commands := cmds; explanation := Some (c :: tip) |}, s2)
     | Returns _ =>
         translate user_input cwd os_shell true session_context ask_ai_fn s
         = (Returns {| commands := cmds; explanation := None |}, s2)
     | Raises e =>
         is_Exception e = true ->
         translate user_input cwd os_shell true session_context ask_ai_fn s
         = (Returns {| commands := cmds; explanation := None |}, s2)
     end.
Proof.
  intros prompt cmds Hask Hne Hcmds Htip. split.
  - by apply translate_plain.
  - rewrite (translate_learning user_input cwd os_shell session_context ask_ai_fn
               raw s s1 o s2 Hask Hne Hcmds Htip).
    destruct o as [[[|c tip]|]|e]; try reflexivity.
    intros ->. reflexivity.
Qed.

(** On the example host the request for an explanation fails with a quota
    error: with learning mode on, [translate] still returns [ls] and
    [ls -la], without an explanation, after two calls to the provider. *)
Lemma explanation_failure_is_swallowed_witness :
  let result :=
    @translate example_host (lit "list files") (lit "/home/user") (lit "Linux/bash") true
      (lit "(no previous commands)") (@ask example_host) (example_state [] true) in
  fst result = Returns {| commands := [lit "ls"; lit "ls -la"]; explanation := None |}
  /\ length (trace (snd result)) = 2%nat.
Proof.
  intros result.
  pose (prompt := translate_prompt (lit "list files") (lit "/home/user") (lit "Linux/bash")
                    (lit "(no previous commands)")).
  pose (s1 := snd (@ask example_host prompt (example_state [] true))).
  pose (s2 := snd (@ask example_host (tip_prompt [lit "ls"; lit "ls -la"]) s1)).
  assert (Hraw : lit "ls" ++ LF ++ LF ++ lit "ls -la" ++ LF <> []) by discriminate.
  assert (Hcmds : parse_commands (lit "ls" ++ LF ++ LF ++ lit "ls -la" ++ LF) <> [])
    by (vm_compute; discriminate).
  destruct (@explanation_failure_is_swallowed example_host (lit "list files")
              (lit "/home/user") (lit "Linux/bash") (lit "(no previous commands)")
              (@ask example_host) (example_state [] true) s1 s2
              (lit "ls" ++ LF ++ LF ++ lit "ls -la" ++ LF)
              (Raises (OtherException (lit "429 quota exceeded")))
              eq_refl Hraw Hcmds eq_refl) as [_ Hswallowed].
  specialize (Hswallowed eq_refl).
  subst result. rewrite Hswallowed. split; reflexivity.
Defined.

(** ** What the other paths record

    Beside [_run_sequence_spawn], [_exec_single_spawn] and
    [_handle_force_run_records]: the two paths of the dispatcher that run a
    line as typed record the exit code of the process.  When [run] raises,
    nothing is recorded and the [except] clauses of [main] take over. *)

Section RecordingFacts.
Context `{Unicode} `{Host}.




End RecordingFacts.

(** * Further properties *)

(** ** Strings *)

Lemma lstrip_idemp s : lstrip (lstrip s) = lstrip s.
Proof.
  induction s as [|c r IH]; [reflexivity|].
  simpl. destruct (is_space c) eqn:Hc; [exact IH|].
  simpl. by rewrite Hc.
Qed.

(** What [lstrip] returns is empty or starts with a code point that is not
    white space. *)
Lemma lstrip_head s :
  lstrip s = [] \/ exists c r, lstrip s = c :: r /\ is_space c = false.
Proof.
  induction s as [|c r IH]; [by left|].
  simpl. destruct (is_space c) eqn:Hc; [exact IH|].
  right. by exists c, r.
Qed.

Lemma rstrip_head c r :
  is_space c = false -> exists r', rstrip (c :: r) = c :: r'.
Proof.
  intros Hc. unfold rstrip. rewrite reverse_cons, lstrip_app.
  destruct (forallb is_space (reverse r)).
  - exists []. simpl. rewrite Hc. reflexivity.
  - exists (reverse (lstrip (reverse r))). rewrite reverse_app. reflexivity.
Qed.

Lemma rstrip_idemp s : rstrip (rstrip s) = rstrip s.
Proof.
  unfold rstrip. by rewrite reverse_involutive, lstrip_idemp.
Qed.

Lemma strip_idemp s : strip (strip s) = strip s.
Proof.
  unfold strip.
  destruct (lstrip_head s) as [Hnil|(c & r & Hcr & Hc)].
  - rewrite Hnil. reflexivity.
  - rewrite Hcr. destruct (rstrip_head c r Hc) as [r' Hr'].
    rewrite Hr'. cbn [lstrip]. rewrite Hc. rewrite <- Hr'. apply rstrip_idemp.
Qed.

Lemma str_in_pair s a b : str_in s [a; b] = true <-> s = a \/ s = b.
Proof.
  unfold str_in, existsb. rewrite !orb_true_iff, !str_eqb_eq. intuition discriminate.
Qed.

(** ** The classifier *)

(** The inputs that [classify_input] answers with Builtin. *)
Lemma classify_builtin_shape `{Unicode} (which : pystr -> bool) (text : pystr) :
  classify_input which text = Builtin
  <-> strip text = []
      \/ startswith (strip text) (lit "!") = true
      \/ strip text = lit "exit" \/ strip text = lit "quit".
Proof.
  unfold classify_input. cbv zeta.
  destruct (strip text) as [|c r] eqn:Hs; cbn [truthy negb].
  - split; [by left|reflexivity].
  - destruct (startswith (c :: r) (lit "!")) eqn:Hbang.
    + split; [intros _; right; by left|reflexivity].
    + destruct (str_in (c :: r) [lit "exit"; lit "quit"]) eqn:Hexit.
      * apply str_in_pair in Hexit. split; [|reflexivity].
        intros _. right. right. exact Hexit.
      * split.
        -- destruct (is_cd (c :: r)); [discriminate|].
           destruct (Qle_bool _ _); discriminate.
        -- intros [?|[?|Hw]]; [discriminate|discriminate|].
           apply str_in_pair in Hw. congruence.
Qed.

(** X1. [classify_input] answers Builtin exactly for the inputs of its
    first three tests: nothing but white space, a leading [!], or the word
    [exit] or [quit] (white space around the input apart). *)
Theorem classify_builtin_iff `{Unicode} (which : pystr -> bool) (text : pystr) :
  classify_input which text = Builtin
  <-> strip text = []
      \/ startswith (strip text) (lit "!") = true
      \/ strip text = lit "exit" \/ strip text = lit "quit".
Proof. exact (classify_builtin_shape which text). Qed.

(** X2. White space around the input never changes its classification. *)
Theorem classify_ignores_outer_space `{Unicode} (which : pystr -> bool) (text : pystr) :
  classify_input which (strip text) = classify_input which text.
Proof.
  unfold classify_input. cbv zeta. by rewrite strip_idemp.
Qed.

(** The score before the question mark grows with the search path: a
    token found by [which'] wherever [which] finds it gives no smaller
    score. *)
Lemma score_before_question_mono `{Unicode} (which which' : pystr -> bool) stripped :
  (which (effective_token_of stripped) = true ->
   which' (effective_token_of stripped) = true) ->
  (score_before_question which stripped <= score_before_question which' stripped)%Q.
Proof.
  intros Hsub. unfold score_before_question. cbv zeta.
  destruct (which (effective_token_of stripped)) eqn:Hw;
    [rewrite (Hsub eq_refl)|destruct (which' (effective_token_of stripped))];
    generalize (startswith_any (effective_token_of stripped) [lit "./"; lit "/"; lit "~"]);
    generalize (startswith (effective_token_of stripped) (lit "$"));
    generalize (existsb (contains stripped) shell_operators);
    generalize (contains stripped (lit ">") && negb (contains stripped (lit ">>"))
                && negb (contains stripped ARROW));
    generalize (2 <=? nl_overlap_of stripped)%nat;
    generalize ((nl_overlap_of stripped =? 1)%nat && (2 <? size (tokens_lower stripped))%nat);
    generalize (4 <=? length (split stripped))%nat;
    generalize (isupper (take 1 stripped) && (1 <? length (split stripped))%nat);
    intros [] [] [] [] [] [] [] []; vm_compute; discriminate.
Qed.

(** X3. A longer search path never turns a Shell line into something
    else: if the input is Shell with [which], it is Shell with any [which']
    that finds every token [which] finds. *)
Theorem classify_shell_mono `{Unicode} (which which' : pystr -> bool) (text : pystr) :
  (forall token, which token = true -> which' token = true) ->
  classify_input which text = Shell ->
  classify_input which' text = Shell.
Proof.
  intros Hsub. unfold classify_input. cbv zeta.
  destruct (negb (truthy (strip text))); [done|].
  destruct (startswith (strip text) (lit "!")); [done|].
  destruct (str_in (strip text) [lit "exit"; lit "quit"]); [done|].
  destruct (is_cd (strip text)); [done|].
  pose proof (score_before_question_mono which which' (strip text) (Hsub _)) as Hmono.
  unfold classify_score. cbv zeta.
  destruct (Qle_bool 1.0 _) eqn:Hle; [|discriminate]. intros _.
  apply Qle_bool_iff in Hle.
  destruct (Qle_bool 1.0 _) eqn:Hle'; [reflexivity|].
  apply Qle_bool_false in Hle'. exfalso.
  destruct (contains (strip text) (lit "?")); destruct (short_lowercase (strip text)); lra.
Qed.

(** With [ls] alone on the path [ls -la | wc] is Shell; it stays Shell
    when every token is on the path. *)
Lemma classify_shell_mono_witness :
  classify_input (H := ascii_only) (fun _ => true) (lit "ls -la | wc") = Shell.
Proof.
  apply (classify_shell_mono (H := ascii_only) (fun token => str_eqb token (lit "ls"))
           (fun _ => true) (lit "ls -la | wc")).
  - intros token _. reflexivity.
  - vm_compute. reflexivity.
Defined.

Lemma islower_ascii_head `{Unicode} s :
  is_ascii s = true -> islower s = true ->
  truthy s = true /\ isupper (take 1 s) = false.
Proof.
  unfold islower, isupper. intros Hascii. rewrite Hascii.
  destruct s as [|c r]; [discriminate|]. intros Hlow. split; [reflexivity|].
  cbn [take is_ascii forallb] in *.
  apply andb_true_iff in Hascii as [Hc _]. rewrite Hc. cbn [andb forallb existsb].
  apply andb_true_iff in Hlow as [Hlow _]. cbn [forallb] in Hlow.
  apply andb_true_iff in Hlow as [Hup _].
  apply negb_true_iff in Hup. rewrite Hup. by rewrite andb_false_r.
Qed.

(** X4. A short lowercase phrase runs as typed: an ASCII input of at most
    three words, all lowercase, with no natural-language word and no
    question mark, that is not a builtin, is Shell whatever is on the search
    path. *)
Theorem short_lowercase_is_shell `{Unicode} (which : pystr -> bool) (text : pystr) :
  let stripped := strip text in
  is_ascii stripped = true ->
  short_lowercase stripped = true ->
  contains stripped (lit "?") = false ->
  startswith stripped (lit "!") = false ->
  str_in stripped [lit "exit"; lit "quit"] = false ->
  classify_input which text = Shell.
Proof.
  intros stripped Hascii Hshort Hq Hbang Hexit.
  pose proof Hshort as Hshort'. unfold short_lowercase in Hshort'.
  apply andb_true_iff in Hshort' as [Hshort' Hlower].
  apply andb_true_iff in Hshort' as [Hwords Hnl].
  apply Nat.leb_le in Hwords. apply Nat.eqb_eq in Hnl.
  destruct (islower_ascii_head stripped Hascii Hlower) as [Hne Hup].
  unfold classify_input. cbv zeta. fold stripped.
  rewrite Hne, Hbang, Hexit. cbn [negb].
  destruct (is_cd stripped); [reflexivity|].
  unfold classify_score. cbv zeta. rewrite Hq, Hshort.
  unfold score_before_question. cbv zeta. rewrite Hnl, Hup.
  replace (4 <=? length (split stripped))%nat with false
    by (symmetry; apply Nat.leb_gt; lia).
  cbn [Nat.leb Nat.eqb andb].
  generalize (startswith_any (effective_token_of stripped) [lit "./"; lit "/"; lit "~"]);
    generalize (startswith (effective_token_of stripped) (lit "$"));
    generalize (which (effective_token_of stripped));
    generalize (existsb (contains stripped) shell_operators);
    generalize (contains stripped (lit ">") && negb (contains stripped (lit ">>"))
                && negb (contains stripped ARROW));
    intros [] [] [] [] []; vm_compute; reflexivity.
Qed.

(** [list files] is no command, and is Shell all the same. *)
Lemma short_lowercase_is_shell_witness :
  classify_input (H := ascii_only) (fun _ => false) (lit "list files") = Shell.
Proof.
  apply (short_lowercase_is_shell (H := ascii_only) (fun _ => false) (lit "list files"));
    vm_compute; reflexivity.
Defined.

(** ** The session log *)

Lemma total_chars_nonneg es : 0 <= total_chars es.
Proof.
  induction es as [|e es IH]; [done|]. rewrite total_chars_cons. lia.
Qed.

Lemma total_chars_app es1 es2 :
  total_chars (es1 ++ es2) = total_chars es1 + total_chars es2.
Proof.
  induction es1 as [|e es1 IH]; [done|].
  simpl app. rewrite !total_chars_cons, IH. lia.
Qed.

Lemma evict_within budget es : total_chars es <= budget -> evict budget es = es.
Proof.
  destruct es as [|e [|e' es]]; try done.
  intros Hfit. rewrite evict_cons2.
  destruct (total_chars (e :: e' :: es) >? budget) eqn:Hgt; [|done].
  rewrite Z.gtb_ltb in Hgt. apply Z.ltb_lt in Hgt. lia.
Qed.

Lemma evict_oversized budget pre e :
  budget < total_chars [e] -> evict budget (pre ++ [e]) = [e].
Proof.
  intros Hbig. induction pre as [|x pre IH]; [reflexivity|].
  destruct pre as [|y pre].
  - simpl app. rewrite evict_cons2.
    replace (total_chars [x; e] >? budget) with true; [reflexivity|].
    symmetry. rewrite Z.gtb_ltb. apply Z.ltb_lt.
    change [x; e] with ([x] ++ [e]). rewrite total_chars_app.
    pose proof (total_chars_nonneg [x]). lia.
  - change ((x :: y :: pre) ++ [e]) with (x :: y :: (pre ++ [e])).
    rewrite evict_cons2.
    replace (total_chars (x :: y :: pre ++ [e]) >? budget) with true; [exact IH|].
    symmetry. rewrite Z.gtb_ltb. apply Z.ltb_lt.
    change (x :: y :: pre ++ [e]) with ((x :: y :: pre) ++ [e]). rewrite total_chars_app.
    pose proof (total_chars_nonneg (x :: y :: pre)). lia.
Qed.

(** X5. While the log has room, [record] only appends: with fewer than
    [maxlen] entries and the new entry within the budget together with the
    old ones, the entries after the call are the old ones followed by the
    new one. *)
Theorem record_appends_when_room (l : SessionLog) (c o : pystr) (rc now : Z) :
  (length (entries l) < maxlen l)%nat ->
  total_chars (entries l ++ [make_entry c o rc now]) <= token_budget l ->
  entries (record l c o rc now) = entries l ++ [make_entry c o rc now].
Proof.
  intros Hroom Hfit. unfold record. cbn [entries]. unfold deque_append. cbv zeta.
  replace (maxlen l <? length (entries l ++ [make_entry c o rc now]))%nat with false.
  - by apply evict_within.
  - symmetry. apply Nat.ltb_ge. rewrite length_app. simpl. lia.
Qed.

Lemma record_appends_when_room_witness :
  entries (record (new_log SESSION_CAPACITY TOKEN_BUDGET) (lit "ls") (lit "a") 0 0)
  = [] ++ [make_entry (lit "ls") (lit "a") 0 0].
Proof.
  apply (record_appends_when_room (new_log SESSION_CAPACITY TOKEN_BUDGET)
           (lit "ls") (lit "a") 0 0); vm_compute; [lia|discriminate].
Defined.

(** X6. An entry that alone exceeds the budget flushes the log: when the
    command and the stored output of the new entry are longer than
    [token_budget] and the capacity is not zero, the new entry is the only
    one left. *)
Theorem record_oversized_flushes (l : SessionLog) (c o : pystr) (rc now : Z) :
  (0 < maxlen l)%nat ->
  token_budget l < total_chars [make_entry c o rc now] ->
  entries (record l c o rc now) = [make_entry c o rc now].
Proof.
  intros Hcap Hbig. unfold record. cbn [entries]. unfold deque_append. cbv zeta.
  destruct (maxlen l <? length (entries l ++ [make_entry c o rc now]))%nat eqn:Hfull.
  - destruct (entries l) as [|x es].
    + apply Nat.ltb_lt in Hfull. simpl in Hfull. lia.
    + change (drop 1 ((x :: es) ++ [make_entry c o rc now]))
        with (es ++ [make_entry c o rc now]).
      by apply evict_oversized.
  - by apply evict_oversized.
Qed.

Lemma record_oversized_flushes_witness :
  entries (record (record (new_log 3 4) (lit "ls") (lit "a") 0 0) (lit "find /") (lit "b") 0 1)
  = [make_entry (lit "find /") (lit "b") 0 1].
Proof.
  apply (record_oversized_flushes (record (new_log 3 4) (lit "ls") (lit "a") 0 0)
           (lit "find /") (lit "b") 0 1); vm_compute; [lia|reflexivity].
Defined.

(** X7. A log of capacity zero stays empty: after any calls of [record] it
    has no entry, and [render_context] is the sentinel. *)
Theorem zero_capacity_log_stays_empty (budget : Z) (calls : list Call) :
  entries (replay (new_log 0 budget) calls) = []
  /\ render_context (replay (new_log 0 budget) calls) = lit "(no previous commands)".
Proof.
  assert (Hempty : entries (replay (new_log 0 budget) calls) = []).
  { assert (Hok : log_ok (replay (new_log 0 budget) calls)).
    { apply replay_ok. split; simpl; [lia|constructor]. }
    destruct Hok as [Hlen _].
    destruct (replay_params (new_log 0 budget) calls) as [Hm _].
    rewrite Hm in Hlen. simpl in Hlen.
    destruct (entries _); [reflexivity|simpl in Hlen; lia]. }
  split; [exact Hempty|]. unfold render_context. by rewrite Hempty.
Qed.

(** ** The translator *)

Section StringForall.
Variable P : N -> Prop.

Lemma Forall_lstrip s : Forall P s -> Forall P (lstrip s).
Proof.
  induction 1 as [|c r Hc Hr IH]; [constructor|].
  simpl. destruct (is_space c); [exact IH|by constructor].
Qed.

Lemma Forall_strip s : Forall P s -> Forall P (strip s).
Proof.
  intros Hs. unfold strip, rstrip.
  apply Forall_reverse, Forall_lstrip, Forall_reverse, Forall_lstrip, Hs.
Qed.

End StringForall.

(** No line that [splitlines] returns holds a line boundary. *)
Lemma splitlines_from_no_linebreak n s cur :
  (length s <= n)%nat ->
  Forall (fun c => is_linebreak c = false) cur ->
  Forall (Forall (fun c => is_linebreak c = false)) (splitlines_from cur s).
Proof.
  revert s cur. induction n as [|n IH]; intros s cur Hlen Hcur.
  - destruct s; [|simpl in Hlen; lia].
    simpl. destruct (truthy cur); repeat constructor. by apply Forall_reverse.
  - destruct s as [|c r].
    + simpl. destruct (truthy cur); repeat constructor. by apply Forall_reverse.
    + simpl in Hlen. cbn [splitlines_from].
      destruct (is_linebreak c) eqn:Hc.
      * constructor; [by apply Forall_reverse|].
        destruct r as [|c' r']; [apply IH; [simpl; lia|constructor]|].
        destruct ((c =? 13)%N && (c' =? 10)%N);
          apply IH; simpl in *; try lia; constructor.
      * apply IH; [lia|]. by constructor.
Qed.

Lemma splitlines_no_linebreak s :
  Forall (Forall (fun c => is_linebreak c = false)) (splitlines s).
Proof. apply (splitlines_from_no_linebreak (length s)); [lia|constructor]. Qed.

(** X8. Every command [translate] takes from a response is one clean line:
    it is not empty, has no white space around it and holds no line
    boundary. *)
Theorem parse_commands_clean (raw : pystr) :
  Forall (fun command =>
            command <> []
            /\ strip command = command
            /\ Forall (fun c => is_linebreak c = false) command)
         (parse_commands raw).
Proof.
  unfold parse_commands.
  pose proof (splitlines_no_linebreak raw) as Hlines.
  induction Hlines as [|ln lns Hln Hlns IH]; [constructor|].
  cbn [flat_map]. destruct (truthy (strip ln)) eqn:Hne; [|exact IH].
  constructor; [|exact IH]. repeat split.
  - intros Heq. rewrite Heq in Hne. discriminate.
  - apply strip_idemp.
  - by apply Forall_strip.
Qed.

Section TranslateWithAsk.
Context `{Host}.

Lemma ask_eq prompt s :
  ask prompt s
  = (fst (ask_ai prompt (world s)),
     emit (Asked prompt) (set_world (snd (ask_ai prompt (world s))) s)).
Proof. unfold ask. by destruct (ask_ai prompt (world s)). Qed.

(** X10. [translate] only talks to the provider: called with the
    provider of the program it asks once, or twice in learning mode, the
    first time with the translation prompt; it spawns no process, changes no
    directory, reads nothing from the terminal and leaves the session log
    and the learning flag as they are. *)
Theorem translate_only_asks (user_input cwd os_shell session_context : pystr)
    (learning : bool) (s : State) :
  let prompt := translate_prompt user_input cwd os_shell session_context in
  exists second,
    trace (snd (translate user_input cwd os_shell learning session_context ask s))
    = trace s ++ Asked prompt :: (Asked <$> second)
    /\ (length second <= if learning then 1 else 0)%nat
    /\ stdin (snd (translate user_input cwd os_shell learning session_context ask s))
       = stdin s
    /\ session_log (snd (translate user_input cwd os_shell learning session_context ask s))
       = session_log s
    /\ learning_mode (snd (translate user_input cwd os_shell learning session_context ask s))
       = learning_mode s.
Proof.
  intros prompt.
  remember (translate user_input cwd os_shell learning session_context ask s) as r eqn:Hr.
  unfold translate, bind in Hr. fold prompt in Hr. rewrite ask_eq in Hr.
  destruct (ask_ai prompt (world s)) as [[[[|c raw]|]|e] w]; cbn [fst snd] in Hr;
    try (subst r; exists []; repeat split; simpl; lia).
  match type of Hr with context [if ?b then _ else _] => destruct b eqn:Hlearn end.
  - unfold try_except_Exception in Hr. rewrite ask_eq in Hr.
    destruct (ask_ai _ _) as [[[[|c' tip]|]|e] w'];
      cbv beta iota delta [ret bind fst snd] in Hr;
      try destruct (is_Exception e); subst r;
      (exists [tip_prompt (parse_commands (c :: raw))]; repeat split;
       [cbn [snd trace emit set_world fmap list_fmap]; rewrite <- app_assoc; reflexivity
       |apply andb_true_iff in Hlearn as [-> _]; simpl; lia]).
  - subst r. exists []. repeat split. simpl. lia.
Qed.

End TranslateWithAsk.

(** ** The executor *)

Lemma split_from_spaces cur ws s :
  forallb is_space ws = true -> cur = [] -> split_from cur (ws ++ s) = split_from [] s.
Proof.
  intros Hws ->. induction ws as [|c ws IH]; [reflexivity|].
  cbn [forallb] in Hws. apply andb_true_iff in Hws as [Hc Hws].
  simpl. rewrite Hc. by apply IH.
Qed.

Lemma split_from_token cur tok s :
  forallb (fun c => negb (is_space c)) tok = true ->
  split_from cur (tok ++ s) = split_from (reverse tok ++ cur) s.
Proof.
  revert cur. induction tok as [|c tok IH]; intros cur Htok; [reflexivity|].
  cbn [forallb] in Htok. apply andb_true_iff in Htok as [Hc Htok].
  apply negb_true_iff in Hc. simpl. rewrite Hc, IH by done.
  by rewrite reverse_cons, <- app_assoc.
Qed.

(** The first token of a line: white space before it and whatever follows
    the white space after it do not matter. *)
Lemma split_first_token ws tok sp rest :
  forallb is_space ws = true ->
  tok <> [] ->
  forallb (fun c => negb (is_space c)) tok = true ->
  is_space sp = true ->
  split (ws ++ tok ++ sp :: rest) = tok :: split rest.
Proof.
  intros Hws Hne Htok Hsp. unfold split.
  rewrite split_from_spaces, split_from_token by done.
  rewrite app_nil_r. cbn [split_from]. rewrite Hsp.
  destruct (reverse tok) as [|c r] eqn:Hrev.
  - apply (f_equal reverse) in Hrev. rewrite reverse_involutive in Hrev. done.
  - cbn [truthy]. rewrite <- Hrev, reverse_involutive. reflexivity.
Qed.

Lemma split_single_token tok :
  tok <> [] -> forallb (fun c => negb (is_space c)) tok = true -> split tok = [tok].
Proof.
  intros Hne Htok. unfold split.
  rewrite <- (app_nil_r tok) at 1. rewrite split_from_token by done.
  rewrite app_nil_r. cbn [split_from].
  destruct (reverse tok) as [|c r] eqn:Hrev.
  - apply (f_equal reverse) in Hrev. rewrite reverse_involutive in Hrev. done.
  - cbn [truthy]. rewrite <- Hrev, reverse_involutive. reflexivity.
Qed.

(** X11. Whether a command needs the terminal is decided by its first
    word alone: arguments after it and white space before it change
    nothing. *)
Theorem needs_pty_first_word (ws tok : pystr) (sp : N) (rest : pystr) :
  forallb is_space ws = true ->
  tok <> [] ->
  forallb (fun c => negb (is_space c)) tok = true ->
  is_space sp = true ->
  needs_pty (ws ++ tok ++ sp :: rest) = needs_pty tok
  /\ needs_pty tok = bool_decide (tok ∈ _PTY_COMMANDS).
Proof.
  intros Hws Hne Htok Hsp. unfold needs_pty. cbv zeta.
  rewrite split_first_token, split_single_token by done. done.
Qed.

(** [vim] with a file name needs the terminal as [vim] does. *)
Lemma needs_pty_first_word_witness :
  needs_pty (lit "  " ++ lit "vim" ++ 32%N :: lit "notes.txt") = needs_pty (lit "vim")
  /\ needs_pty (lit "vim") = bool_decide (lit "vim" ∈ _PTY_COMMANDS).
Proof.
  apply (needs_pty_first_word (lit "  ") (lit "vim") 32%N (lit "notes.txt"));
    vm_compute; (reflexivity || discriminate).
Defined.

(** *** Sequential mode and the log *)

(** X12. In Sequential mode the session log follows the processes: the
    log after the run is the log before it with one [record] per process
    that returned, in order, each with the command and the exit code of its
    process.  Changes of directory are not recorded, and neither is a call
    of [run] that raised: the run ends there by that exception.  Nothing is
    read from the terminal and the learning flag is not touched. *)
Theorem sequence_log_follows_processes `{Host} (cmds : list pystr) (s : State) :
  exists evs calls r s',
    _run_sequence cmds s = (r, s')
    /\ trace s' = trace s ++ evs
    /\ ends_as r evs
    /\ session_log s' = replay (session_log s) calls
    /\ Forall2 recorded_as calls (List.filter is_spawn evs)
    /\ stdin s' = stdin s
    /\ learning_mode s' = learning_mode s.
Proof.
  revert s. induction cmds as [|command rest IH]; intros s.
  - exists [], [], (Returns tt), s. rewrite app_nil_r. repeat split. constructor.
  - destruct (startswith command (lit "cd ")) eqn:Hcd.
    + rewrite (_run_sequence_chdir command rest s Hcd).
      set (path := os_expanduser (strip (drop 3 command))).
      destruct (os_chdir path (world s)) as [[] w]; cbn [fst snd].
      * destruct (IH (changed_dir path true w s))
          as (evs & calls & r & s' & -> & Htr & Hend & Hlog & Hrec & Hin & Hlm).
        exists (ChangedDir path true :: evs), calls, r, s'. repeat split; try done.
        -- rewrite Htr. cbn [trace changed_dir]. by rewrite <- app_assoc.
        -- by apply ends_as_cons.
      * exists [ChangedDir path false], [], (Returns tt), (changed_dir path false w s).
        repeat split. constructor.
    + rewrite (_run_sequence_spawn command rest s Hcd).
      destruct (subprocess_run command _ (world s)) as [[proc|e] w].
      * set (s1 := ran command proc w (returncode proc) s).
        set (ev := Spawned command (negb (needs_pty command)) (returncode proc)).
        set (call := {| call_cmd := command;
                        call_output := if needs_pty command then []
                                       else stdout proc ++ stderr proc;
                        call_exit_code := returncode proc;
                        call_now := datetime_now w |}).
        assert (Hcall : recorded_as call ev) by (by eexists).
        destruct (negb (returncode proc =? 0)).
        -- exists [ev], [call], (Returns tt), s1. repeat split. by repeat constructor.
        -- destruct (IH s1)
             as (evs & calls & r & s' & -> & Htr & Hend & Hlog & Hrec & Hin & Hlm).
           exists (ev :: evs), (call :: calls), r, s'. repeat split; try done.
           ++ rewrite Htr. cbn [trace ran s1]. by rewrite <- app_assoc.
           ++ by apply ends_as_cons.
           ++ cbn [List.filter is_spawn ev]. by constructor.
      * exists [SpawnFailed command (negb (needs_pty command)) e], [], (Raises e),
          (spawn_failed command e w s).
        repeat split. constructor.
Qed.

(** *** The multi-step flow *)

Section MultiStepFacts.
Context `{Unicode} `{Host}.

Lemma _exec_multi_eq cmds explanation reply more s :
  stdin s = reply :: more ->
  _exec_multi cmds explanation s
  = if str_in (lower (strip reply)) [lit "y"; lit "yes"; lit ""]
    then _run_sequence cmds (set_stdin more s)
    else if str_eqb (lower (strip reply)) (lit "step")
         then _run_stepping cmds (set_stdin more s)
         else (Returns tt, set_stdin more s).
Proof.
  intros Hin. unfold _exec_multi, bind, input. rewrite Hin.
  destruct (str_in _ _); [reflexivity|]. destruct (str_eqb _ _); reflexivity.
Qed.

End MultiStepFacts.

(** X13. The reply to [Run all?] decides what the multi-step flow does:
    [y], [yes] or nothing runs the plan in Sequential mode, which spends no
    further line of the terminal; [step] runs it in Stepping mode on the
    lines that follow; after any other reply nothing is called and only the
    reply is gone from the terminal.  In both modes a call of [run] that
    raises is the last call, and the flow ends by its exception. *)
Theorem multi_step_confirmation `{Unicode} `{Host}
    (cmds : list pystr) (explanation : option pystr) (s : State)
    (reply : pystr) (more : list pystr) :
  stdin s = reply :: more ->
  let confirm := lower (strip reply) in
  (str_in confirm [lit "y"; lit "yes"; lit ""] = true ->
   exists evs r s',
     _exec_multi cmds explanation s = (r, s')
     /\ trace s' = trace s ++ evs
     /\ sequence_run cmds evs
     /\ ends_as r evs
     /\ stdin s' = more)
  /\ (str_in confirm [lit "y"; lit "yes"; lit ""] = false ->
      confirm = lit "step" ->
      exists evs r s',
        _exec_multi cmds explanation s = (r, s')
        /\ trace s' = trace s ++ evs
        /\ stepping_run (stepping_plan cmds more) evs
        /\ stepping_ends_as r evs)
  /\ (str_in confirm [lit "y"; lit "yes"; lit ""] = false ->
      confirm <> lit "step" ->
      _exec_multi cmds explanation s = (Returns tt, set_stdin more s)).
Proof.
  intros Hin confirm.
  rewrite (_exec_multi_eq cmds explanation reply more s Hin). fold confirm.
  split; [|split].
  - intros ->.
    destruct (_run_sequence_events cmds (set_stdin more s))
      as (evs & r & s' & Heq & Htr & Hstdin & Hrun & Hend).
    by exists evs, r, s'.
  - intros -> Hstep. rewrite Hstep, str_eqb_refl.
    destruct (_run_stepping_events cmds (set_stdin more s))
      as (evs & r & s' & Heq & Htr & Hplan & Hend).
    by exists evs, r, s'.
  - intros -> Hother. destruct (str_eqb confirm (lit "step")) eqn:Hstep; [|reflexivity].
    apply str_eqb_eq in Hstep. done.
Qed.

(** On the example host the reply [n] cancels the plan. *)
Lemma multi_step_confirmation_witness :
  @_exec_multi ascii_only example_host [lit "a"; lit "b"] None
    (example_state [lit "n"; lit "y"] false)
  = (Returns tt, example_state [lit "y"] false).
Proof.
  refine (proj2 (proj2 (@multi_step_confirmation ascii_only example_host
            [lit "a"; lit "b"] None (example_state [lit "n"; lit "y"] false)
            (lit "n") [lit "y"] eq_refl)) eq_refl _).
  vm_compute. discriminate.
Defined.

(** ** The dispatcher *)

Section DispatcherRounds.
Context `{Unicode} `{Host}.



End DispatcherRounds.







Section NaturalRounds.
Context `{Unicode} `{Host}.


End NaturalRounds.









(** ** Configuration and update targets *)

(** X21. The learning flag survives a round through its file: [read_cfg]
    after [write_cfg] on the same path gives the flag written, whatever the
    files held before. *)
Theorem cfg_round_trip `{Unicode} (cfg_file : pystr) (learning : bool) (fs : System.Files) :
  System.read_cfg cfg_file (System.write_cfg cfg_file learning fs) = learning.
Proof.
  unfold System.read_cfg, System.write_cfg, System.Files in *.
  rewrite lookup_insert_eq. destruct learning; vm_compute; reflexivity.
Qed.

#[local] Instance str_le_total : Total System.str_le.
Proof.
  intros s. unfold System.str_le.
  induction s as [|a s IH]; intros [|b t]; simpl; try (by left); try (by right).
  destruct (IH t) as [Hst|Hts].
  - destruct (N.ltb_spec a b); [by left|].
    destruct (N.ltb_spec b a); [by right|].
    assert (a = b) as -> by lia. rewrite N.eqb_refl, Hst. by left.
  - destruct (N.ltb_spec b a); [by right|].
    destruct (N.ltb_spec a b); [by left|].
    assert (a = b) as -> by lia. rewrite N.eqb_refl, Hts. by right.
Qed.

Lemma endswith_spec s suffix :
  System.endswith s suffix = true <-> exists stem, s = stem ++ suffix.
Proof.
  unfold System.endswith. rewrite startswith_spec. split.
  - intros [r Hr]. exists (reverse r).
    apply (f_equal reverse) in Hr.
    by rewrite reverse_involutive, reverse_app, reverse_involutive in Hr.
  - intros [stem ->]. exists (reverse stem). by rewrite reverse_app.
Qed.

Lemma is_target_spec name is_file :
  System.is_target (name, is_file) = true
  <-> is_file = true
      /\ ((exists stem, name = stem ++ lit ".py") \/ name = lit "requirements.txt").
Proof.
  unfold System.is_target. cbn [fst snd].
  by rewrite andb_true_iff, orb_true_iff, str_eqb_eq, endswith_spec.
Qed.

Lemma NoDup_fst_filter {A B} (f : A * B -> bool) (l : list (A * B)) :
  NoDup (fst <$> l) -> NoDup (fst <$> List.filter f l).
Proof.
  induction l as [|x l IH]; [done|].
  rewrite fmap_cons, NoDup_cons. intros [Hx Hl]. cbn [List.filter].
  destruct (f x); [|by apply IH].
  rewrite fmap_cons, NoDup_cons. split; [|by apply IH].
  intros Hin. apply Hx. apply list_elem_of_fmap in Hin as (y & -> & Hy).
  apply list_elem_of_fmap. exists y. split; [done|].
  apply list_elem_of_In. apply list_elem_of_In, filter_In in Hy. tauto.
Qed.

(** X22. The update targets of a directory: a name is among them exactly
    when the listing has it as a regular file and it ends in [.py] or is
    [requirements.txt]; they come in ascending order, and no name comes
    twice when the listing has no name twice.  A path that does not exist
    has none. *)
Theorem update_targets_sorted_selection (listing : list (pystr * bool)) :
  System._update_file_targets None = []
  /\ (forall name,
        name ∈ System._update_file_targets (Some listing)
        <-> (name, true) ∈ listing
            /\ ((exists stem, name = stem ++ lit ".py") \/ name = lit "requirements.txt"))
  /\ Sorted System.str_le (System._update_file_targets (Some listing))
  /\ (NoDup (fst <$> listing) -> NoDup (System._update_file_targets (Some listing))).
Proof.
  unfold System._update_file_targets, System.sorted.
  split; [reflexivity|]. split; [|split].
  - intros name. rewrite merge_sort_Permutation, list_elem_of_fmap. split.
    + intros ([name' is_file] & -> & Hin).
      apply list_elem_of_In, filter_In in Hin as [Hin Htarget].
      apply is_target_spec in Htarget as [-> Hname].
      split; [by apply list_elem_of_In|exact Hname].
    + intros [Hin Hname]. exists (name, true). split; [reflexivity|].
      apply list_elem_of_In, filter_In. split; [by apply list_elem_of_In|].
      by apply is_target_spec.
  - apply Sorted_merge_sort, _.
  - intros Hnodup. rewrite merge_sort_Permutation. by apply NoDup_fst_filter.
Qed.

(** ** The log and its digest *)

Lemma flat_map_snoc {A B} (f : A -> list B) (l : list A) (x : A) :
  flat_map f (l ++ [x]) = flat_map f l ++ f x.
Proof. rewrite flat_map_app. simpl. by rewrite app_nil_r. Qed.

Lemma render_context_nonempty l pre e :
  entries l = pre ++ [e] ->
  render_context l
  = join LF (flat_map entry_block
               (drop (length (pre ++ [e]) - 6)%nat (pre ++ [e]))).
Proof.
  intros Hl. unfold render_context. rewrite Hl.
  destruct pre; cbn [app]; rewrite foldl_render_entry; reflexivity.
Qed.

(** X9. The command just recorded is always in the digest: after a call
    of [record] on a log whose capacity is not zero, [render_context] ends
    with the block of the new entry, its status line and the first lines of
    its output. *)
Theorem digest_ends_with_newest (l : SessionLog) (c o : pystr) (rc now : Z) :
  (0 < maxlen l)%nat ->
  exists earlier,
    render_context (record l c o rc now)
    = join LF (earlier ++ entry_block (make_entry c o rc now)).
Proof.
  intros Hcap.
  assert (Hlast : last (entries (record l c o rc now)) = Some (make_entry c o rc now)).
  { cbn [record entries]. rewrite evict_last. by apply deque_append_last. }
  apply last_Some in Hlast as [pre Hpre].
  rewrite (render_context_nonempty _ pre _ Hpre).
  rewrite drop_app_le by (rewrite length_app; simpl; lia).
  rewrite flat_map_snoc. by eexists.
Qed.

(** After [ls] is recorded in a new log the digest is its block. *)
Lemma digest_ends_with_newest_witness :
  exists earlier,
    render_context (record (new_log SESSION_CAPACITY TOKEN_BUDGET) (lit "ls") (lit "a") 0 0)
    = join LF (earlier ++ entry_block (make_entry (lit "ls") (lit "a") 0 0)).
Proof.
  apply (digest_ends_with_newest (new_log SESSION_CAPACITY TOKEN_BUDGET)
           (lit "ls") (lit "a") 0 0).
  vm_compute. lia.
Defined.

(** ** When a collaborator raises

    Worked examples of the two calls that the handlers do not guard. *)

(** Sequential mode on [a], [cat blob], [c] where the output of [cat blob]
    cannot be decoded: [a] is run and recorded, the run ends by the exception
    of [cat blob], which is not recorded, and [c] is not run. *)
Example sequence_ends_where_run_raises :
  exists s',
    @_run_sequence garbled_host [lit "a"; lit "cat blob"; lit "c"] (garbled_state [])
    = (Raises (OtherException (lit "UnicodeDecodeError")), s')
    /\ trace s' = [Spawned (lit "a") true 0;
                   SpawnFailed (lit "cat blob") true
                     (OtherException (lit "UnicodeDecodeError"))]
    /\ cmd <$> entries (session_log s') = [lit "a"].
Proof. eexists. split; [vm_compute; reflexivity|]. split; vm_compute; reflexivity. Qed.

(** The same line typed at the prompt: the round ends without a record, and
    the loop goes on. *)
Example shell_round_where_run_raises :
  exists s',
    @repl_step ascii_only garbled_host (garbled_state [lit "cat blob"; lit "ls"])
    = (Returns Continue, s')
    /\ stdin s' = [lit "ls"]
    /\ entries (session_log s') = [].
Proof. eexists. split; [vm_compute; reflexivity|]. split; vm_compute; reflexivity. Qed.

(** In a removed working directory a round reads no line: [cd /tmp] stays on
    the terminal, and the loop goes on. *)
Example round_in_removed_directory :
  @repl_step ascii_only removed_dir_host (removed_dir_state [lit "cd /tmp"])
  = (Returns Continue, removed_dir_state [lit "cd /tmp"]).
Proof. vm_compute. reflexivity. Qed.
